(** * Jobclick: the daily counter of [src/App.tsx]

    A shallow embedding of the state logic of the [App] component: the
    history of per-day records, the three state updaters (ensure today's
    entry, increment, reset), the summary statistics, and the persistence
    of the history in [localStorage] as JSON text.

    Conventions of the embedding.
    - A JavaScript string is the list of its UTF-16 code units ([jsstring]);
      [===] on strings is equality of these lists and [>=] is the
      lexicographic order on them.
    - A [count] is a JavaScript number holding an integer: a [Z]. Additions
      are the additions of doubles: the exact sum rounded to 53 bits, ties to
      even ([roundToDouble]), and a sum of counts can be an infinity or NaN
      ([jsnum]).
    - React state is threaded explicitly: an updater passed to [setHistory]
      is a function from the current history to the next one. *)

From Stdlib Require Import ZArith List Lia String Ascii.
From Stdlib Require Import Decimal DecimalFacts DecimalPos DecimalZ.
From Corelib Require Import SpecFloat.
From stdpp Require Import base option list gmap.

Local Open Scope Z_scope.

(** ** JavaScript strings *)

Abbreviation jsstring := (list N) (only parsing).

(** The code units of a literal (all below 256). *)
Definition units (s : string) : jsstring :=
  map N_of_ascii (list_ascii_of_string s).

(** Characters of dates and of the JSON grammar. *)
Abbreviation QUOTE := 34%N (only parsing).
Abbreviation BACKSLASH := 92%N (only parsing).
Abbreviation COMMA := 44%N (only parsing).
Abbreviation COLON := 58%N (only parsing).
Abbreviation LBRACKET := 91%N (only parsing).
Abbreviation RBRACKET := 93%N (only parsing).
Abbreviation LBRACE := 123%N (only parsing).
Abbreviation RBRACE := 125%N (only parsing).
Abbreviation MINUS := 45%N (only parsing).
Abbreviation PLUS := 43%N (only parsing).
Abbreviation DOT := 46%N (only parsing).

(** ** JavaScript numbers *)

(** The double nearest to an integer, ties to the even significand: an
    integer of at most 53 bits is kept, a larger one is rounded to a multiple
    of [2^e] whose quotient has 53 bits. *)
Definition roundToDouble (z : Z) : Z :=
  let a := Z.abs z in
  let e := Z.log2 a - 52 in
  if e <=? 0 then z
  else
    let p := 2 ^ e in
    let q := a / p in
    let r := a mod p in
    let q' := if 2 * r <? p then q else if p <? 2 * r then q + 1 else q + q mod 2 in
    Z.sgn z * (q' * p).
Arguments roundToDouble : simpl never.

(** The values that sums of integers take: an integer, an infinity, NaN. *)
Inductive jsnum :=
  | Finite (z : Z)
  | Infinity (negative : bool)
  | NaN.

(** The first power of two that is not a double. *)
Definition doubleLimit : Z := 2 ^ 1024.

Definition overflow (z : Z) : jsnum :=
  if doubleLimit <=? Z.abs z then Infinity (z <? 0) else Finite z.

(** [a + b] on numbers. *)
Definition Number_add (a b : jsnum) : jsnum :=
  match a, b with
  | Finite x, Finite y => overflow (roundToDouble (x + y))
  | NaN, _ | _, NaN => NaN
  | Infinity s, Finite _ | Finite _, Infinity s => Infinity s
  | Infinity s1, Infinity s2 => if Bool.eqb s1 s2 then Infinity s1 else NaN
  end.

(** [a <= b] on numbers. *)
Definition Number_leb (a b : jsnum) : bool :=
  match a, b with
  | NaN, _ | _, NaN => false
  | Finite x, Finite y => x <=? y
  | Infinity s, Finite _ => s
  | Finite _, Infinity s => negb s
  | Infinity s1, Infinity s2 => s1 || negb s2
  end.

(** ** Data model (lines 5-8) *)

Record TrackerData := mkTrackerData {
  count : Z;
  date : jsstring  (* YYYY-MM-DD *)
}.

Abbreviation History := (list TrackerData) (only parsing).

(** ** State updaters *)

(** The updater of the ensure-today effect (lines 60-67). *)
Definition ensureToday (todayDate : jsstring) (currentHistory : History) : History :=
  let hasTodayEntry :=
    existsb (fun entry => bool_decide (date entry = todayDate)) currentHistory in
  if negb hasTodayEntry
  then {| date := todayDate; count := 0 |} :: currentHistory
  else currentHistory.

(** The effect itself (lines 57-68): nothing happens before the client flag
    is set. *)
Definition ensureTodayEffect (isClient : bool) (todayDate : jsstring)
    (history : History) : History :=
  if negb isClient then history else ensureToday todayDate history.

(** The updater of [incrementCount] (lines 80-88). Adding 1 to a double
    never overflows, so the new count is the rounded sum. *)
Definition incrementCount (todayDate : jsstring) (currentHistory : History) : History :=
  map (fun entry =>
         if bool_decide (date entry = todayDate)
         then {| count := roundToDouble (count entry + 1); date := date entry |}
         else entry)
      currentHistory.

(** The updater inside [resetCount] (lines 92-98). *)
Definition resetUpdater (todayDate : jsstring) (currentHistory : History) : History :=
  map (fun entry =>
         if bool_decide (date entry = todayDate)
         then {| count := 0; date := date entry |}
         else entry)
      currentHistory.

(** [resetCount] (lines 90-100): the updater runs only when the user
    confirms; [confirmed] is the answer of [window.confirm]. *)
Definition resetCount (confirmed : bool) (todayDate : jsstring)
    (currentHistory : History) : History :=
  if confirmed then resetUpdater todayDate currentHistory else currentHistory.

(** [todayCount] (lines 76-78). *)
Definition todayCount (history : History) (todayDate : jsstring) : Z :=
  match find (fun entry => bool_decide (date entry = todayDate)) history with
  | Some entry => count entry
  | None => 0
  end.

(** The invariants of the data model: one record per date, no negative
    count. *)
Definition datesUnique (h : History) : Prop := NoDup (map date h).
Definition countsNonNegative (h : History) : Prop := Forall (fun e => 0 <= count e) h.
Definition historyInvariant (h : History) : Prop :=
  datesUnique h /\ countsNonNegative h.

Definition hasEntry (d : jsstring) (h : History) : Prop :=
  exists e, In e h /\ date e = d.

(** ** Text of numbers and dates *)

(** Decimal digits as code units; the digits themselves come from the
    standard library's [Decimal] numerals. *)
Fixpoint uint_units (d : uint) : jsstring :=
  match d with
  | Nil => []
  | D0 r => 48%N :: uint_units r
  | D1 r => 49%N :: uint_units r
  | D2 r => 50%N :: uint_units r
  | D3 r => 51%N :: uint_units r
  | D4 r => 52%N :: uint_units r
  | D5 r => 53%N :: uint_units r
  | D6 r => 54%N :: uint_units r
  | D7 r => 55%N :: uint_units r
  | D8 r => 56%N :: uint_units r
  | D9 r => 57%N :: uint_units r
  end.

(** [String(n)] for an integer [n] (of less than 22 digits, beyond which
    JavaScript switches to an exponent): a minus sign for a negative number,
    then the decimal digits without leading zeros. *)
Definition Number_toString (n : Z) : jsstring :=
  match Z.to_int n with
  | Pos u => uint_units u
  | Neg u => MINUS :: uint_units u
  end.

(** A two-digit field of a date. *)
Definition pad2 (n : Z) : jsstring :=
  if n <? 10 then 48%N :: Number_toString n else Number_toString n.

(** The comparison of two strings by code units, as the relational
    operators of JavaScript do it. *)
Fixpoint str_compare (a b : jsstring) : comparison :=
  match a, b with
  | [], [] => Eq
  | [], _ :: _ => Lt
  | _ :: _, [] => Gt
  | x :: a', y :: b' =>
      match N.compare x y with
      | Eq => str_compare a' b'
      | c => c
      end
  end.

(** [a >= b] on strings. *)
Definition str_ge (a b : jsstring) : bool :=
  match str_compare a b with
  | Lt => false
  | _ => true
  end.

(** ** Calendar dates *)

(** The local calendar date carried by a [Date] object; [month] is 1-based
    as in the formatted text. The time of day plays no role in the code. *)
Record CivilDate := mkDate {
  year : Z;
  month : Z;
  day : Z
}.

Definition isLeapYear (y : Z) : bool :=
  (y mod 4 =? 0) && (negb (y mod 100 =? 0) || (y mod 400 =? 0)).

Definition daysInMonth (y m : Z) : Z :=
  if m =? 2 then (if isLeapYear y then 29 else 28)
  else if (m =? 4) || (m =? 6) || (m =? 9) || (m =? 11) then 30
  else 31.

(** [Date.prototype.getDate]. *)
Definition getDate (t : CivilDate) : Z := day t.

(** [Date.prototype.setDate] for a day of the month [n] that is at most the
    current day and above -28, which covers [getDate() - 6]: a value below 1
    counts backwards from the last day of the previous month. *)
Definition setDate (t : CivilDate) (n : Z) : CivilDate :=
  if 1 <=? n then {| year := year t; month := month t; day := n |}
  else
    let y' := if month t =? 1 then year t - 1 else year t in
    let m' := if month t =? 1 then 12 else month t - 1 in
    {| year := y'; month := m'; day := daysInMonth y' m' + n |}.

(** [toLocaleDateString('en-CA')]: YYYY-MM-DD. *)
Definition toLocaleDateString_enCA (t : CivilDate) : jsstring :=
  Number_toString (year t) ++ MINUS :: pad2 (month t) ++ MINUS :: pad2 (day t).

(** [getTodayDateString] of [useDate] (line 15), with the clock's date as an
    argument. *)
Definition getTodayDateString (now : CivilDate) : jsstring :=
  toLocaleDateString_enCA now.

(** ** Summary statistics (lines 102-119) *)

(** [bestDay] is either the bare [{ count: 0 }] of the empty history or the
    record that [reduce] returns. *)
Inductive BestDay :=
  | CountOnly (c : Z)
  | Entry (e : TrackerData).

Definition bestCount (b : BestDay) : Z :=
  match b with
  | CountOnly c => c
  | Entry e => count e
  end.

Record SummaryStats := mkStats {
  total : jsnum;
  last7DaysTotal : jsnum;
  bestDay : BestDay
}.

(** The function that [reduce] folds for the sums (lines 106 and 114). *)
Definition addCount (sum : jsnum) (entry : TrackerData) : jsnum :=
  Number_add sum (Finite (count entry)).

(** The function that [reduce] folds for [bestDay] (line 116): the entry
    replaces the running maximum only when its count is larger. *)
Definition largerCount (max entry : TrackerData) : TrackerData :=
  if count entry >? count max then entry else max.

(** [now] is the value of [new Date()] when the statistics are computed. *)
Definition summaryStats (now : CivilDate) (history : History) : SummaryStats :=
  if (length history =? 0)%nat then
    {| total := Finite 0; last7DaysTotal := Finite 0; bestDay := CountOnly 0 |}
  else
    let total := fold_left addCount history (Finite 0) in
    let sevenDaysAgo := setDate now (getDate now - 6) in
    let sevenDaysAgoStr := toLocaleDateString_enCA sevenDaysAgo in
    let last7DaysTotal :=
      fold_left addCount
        (List.filter (fun entry => str_ge (date entry) sevenDaysAgoStr) history)
        (Finite 0) in
    let bestDay := fold_left largerCount history {| count := 0; date := [] |} in
    {| total := total; last7DaysTotal := last7DaysTotal; bestDay := Entry bestDay |}.

(** ** Reference notions for the statistics *)

(** The sum of the counts of a list of records. *)
Fixpoint sumCounts (h : History) : Z :=
  match h with
  | [] => 0
  | e :: r => count e + sumCounts r
  end.

(** The sum of the sizes of the counts: while it is at most 2^53, no sum of
    counts of the history is rounded. *)
Fixpoint sumAbs (h : History) : Z :=
  match h with
  | [] => 0
  | e :: r => Z.abs (count e) + sumAbs r
  end.

(** [m] is the first record of the largest count in [h]: every record before
    it has a smaller count and no record after it has a larger one. *)
Definition firstMaxOf (h : History) (m : TrackerData) : Prop :=
  exists pre post, h = pre ++ m :: post /\
    Forall (fun e => count e < count m) pre /\
    Forall (fun e => count e <= count m) post.

(** The number of a day, counted from 1 January of year 1. *)
Definition daysBeforeYear (y : Z) : Z :=
  365 * (y - 1) + (y - 1) / 4 - (y - 1) / 100 + (y - 1) / 400.

Definition daysBeforeMonth (y m : Z) : Z :=
  fold_left (fun acc k => acc + daysInMonth y k) (map Z.of_nat (seq 1 (Z.to_nat (m - 1)))) 0.

Definition dayNumber (t : CivilDate) : Z :=
  daysBeforeYear (year t) + daysBeforeMonth (year t) (month t) + day t.

(** A date of the calendar with a four-digit year. *)
Definition validDate (t : CivilDate) : Prop :=
  1000 <= year t <= 9999 /\ 1 <= month t <= 12 /\
  1 <= day t <= daysInMonth (year t) (month t).

(** Dated counts, and the history that records them. *)
Definition recordOf (r : CivilDate * Z) : TrackerData :=
  {| count := r.2; date := toLocaleDateString_enCA r.1 |}.

Definition historyOf (rs : list (CivilDate * Z)) : History := map recordOf rs.

(** The sum of the counts of the records dated from [lo] days ago on. *)
Definition sumSince (today : CivilDate) (lo : Z) (rs : list (CivilDate * Z)) : Z :=
  sumCounts (historyOf
    (List.filter (fun r => dayNumber today - lo <=? dayNumber r.1) rs)).

(** The sum of the counts of the records dated in the window from [lo] days
    ago through today. *)
Definition sumWindow (today : CivilDate) (lo : Z) (rs : list (CivilDate * Z)) : Z :=
  sumCounts (historyOf
    (List.filter (fun r => (dayNumber today - lo <=? dayNumber r.1)
                           && (dayNumber r.1 <=? dayNumber today)) rs)).

(** The order of the calendar. *)
Definition dateCompare (a b : CivilDate) : comparison :=
  match year a ?= year b with
  | Eq => match month a ?= month b with
          | Eq => day a ?= day b
          | c => c
          end
  | c => c
  end.

Definition yearLength (y : Z) : Z := if isLeapYear y then 366 else 365.

(** The digits of a four-digit year and of a two-digit field, by division. *)
Definition digit (n : Z) : N := Z.to_N (48 + n).

Definition fixed4 (y : Z) : jsstring :=
  [digit (y / 1000); digit ((y / 100) mod 10); digit ((y / 10) mod 10); digit (y mod 10)].

Definition fixed2 (n : Z) : jsstring := [digit (n / 10); digit (n mod 10)].

(** ** JSON values and JSON text *)

(** The value of a number literal, kept exactly: an integer, or [m / 10^k]
    with [m] not a multiple of 10. [JSON.parse] rounds a literal to the
    nearest double and reads one beyond the doubles as an infinity; a literal
    that [JSON.stringify] wrote for a count, which is a double, is read as
    that count either way. *)
Inductive number :=
  | NInt (z : Z)
  | NFrac (m : Z) (k : positive).

(** The values that [JSON.parse] returns. An object is the map from its own
    keys to their values. *)
#[warnings="-register-all"]
Inductive json :=
  | JNull
  | JBool (b : bool)
  | JNum (n : number)
  | JStr (s : jsstring)
  | JArr (l : list json)
  | JObj (m : gmap jsstring json).

(** *** [JSON.stringify] on a history *)

Definition hexdigit (n : N) : N :=
  (if n <? 10 then 48 + n else 87 + n)%N.

(** The escape [\uXXXX] of a code unit. *)
Definition unicode_escape (c : N) : jsstring :=
  [BACKSLASH; 117%N;
   hexdigit ((c / 4096) mod 16)%N; hexdigit ((c / 256) mod 16)%N;
   hexdigit ((c / 16) mod 16)%N; hexdigit (c mod 16)%N].

Definition isHighSurrogate (c : N) : bool := ((55296 <=? c) && (c <=? 56319))%N.
Definition isLowSurrogate (c : N) : bool := ((56320 <=? c) && (c <=? 57343))%N.

(** A code unit that is not a surrogate: the short escapes, [\u00XX] for the
    other control characters, the unit itself otherwise. *)
Definition quote_unit (c : N) : jsstring :=
  (if c =? 8 then [BACKSLASH; 98]
   else if c =? 9 then [BACKSLASH; 116]
   else if c =? 10 then [BACKSLASH; 110]
   else if c =? 12 then [BACKSLASH; 102]
   else if c =? 13 then [BACKSLASH; 114]
   else if c =? QUOTE then [BACKSLASH; QUOTE]
   else if c =? BACKSLASH then [BACKSLASH; BACKSLASH]
   else if c <? 32 then unicode_escape c
   else [c])%N.

(** The characters between the quotes: a surrogate pair is copied, a
    surrogate on its own is escaped. *)
Fixpoint quote_chars (s : jsstring) : jsstring :=
  match s with
  | [] => []
  | c :: r =>
      if isHighSurrogate c then
        match r with
        | d :: r' =>
            if isLowSurrogate d then c :: d :: quote_chars r'
            else unicode_escape c ++ quote_chars r
        | [] => unicode_escape c
        end
      else if isLowSurrogate c then unicode_escape c ++ quote_chars r
      else quote_unit c ++ quote_chars r
  end.

Definition quoteJSONString (s : jsstring) : jsstring :=
  QUOTE :: quote_chars s ++ [QUOTE].

(** A record is written with its keys in the order in which line 64 creates
    them (the spread of lines 84 and 95 keeps that order). *)
Definition stringify_entry (e : TrackerData) : jsstring :=
  LBRACE :: quoteJSONString (units "date") ++ COLON :: quoteJSONString (date e)
    ++ COMMA :: quoteJSONString (units "count") ++ COLON :: Number_toString (count e)
    ++ [RBRACE].

Fixpoint stringify_entries (h : History) : jsstring :=
  match h with
  | [] => []
  | [e] => stringify_entry e
  | e :: r => stringify_entry e ++ COMMA :: stringify_entries r
  end.

Definition JSON_stringify (history : History) : jsstring :=
  LBRACKET :: stringify_entries history ++ [RBRACKET].

(** *** [JSON.parse] *)

Definition is_ws (c : N) : bool :=
  ((c =? 32) || (c =? 9) || (c =? 10) || (c =? 13))%N.

Fixpoint skip_ws (s : jsstring) : jsstring :=
  match s with
  | c :: r => if is_ws c then skip_ws r else s
  | [] => []
  end.

Definition hexval (c : N) : option N :=
  (if (48 <=? c) && (c <=? 57) then Some (c - 48)
   else if (97 <=? c) && (c <=? 102) then Some (c - 87)
   else if (65 <=? c) && (c <=? 70) then Some (c - 55)
   else None)%N.

Definition hex4 (a b c d : N) : option N :=
  x1 ← hexval a; x2 ← hexval b; x3 ← hexval c; x4 ← hexval d;
  Some (4096 * x1 + 256 * x2 + 16 * x3 + x4)%N.

(** The character that a one-letter escape stands for. *)
Definition unescape (e : N) : option N :=
  (if e =? QUOTE then Some QUOTE
   else if e =? BACKSLASH then Some BACKSLASH
   else if e =? 47 then Some 47
   else if e =? 98 then Some 8
   else if e =? 102 then Some 12
   else if e =? 110 then Some 10
   else if e =? 114 then Some 13
   else if e =? 116 then Some 9
   else None)%N.

Definition prepend (c : N) (res : option (jsstring * jsstring)) :
    option (jsstring * jsstring) :=
  match res with
  | Some (str, rest) => Some (c :: str, rest)
  | None => None
  end.

(** A string literal after its opening quote: the string and the text after
    the closing quote. *)
Fixpoint string_chars (s : jsstring) : option (jsstring * jsstring) :=
  match s with
  | [] => None
  | c :: r =>
      if (c =? QUOTE)%N then Some ([], r)
      else if (c =? BACKSLASH)%N then
        match r with
        | e :: r' =>
            if (e =? 117)%N then
              match r' with
              | x1 :: x2 :: x3 :: x4 :: r'' =>
                  match hex4 x1 x2 x3 x4 with
                  | Some u => prepend u (string_chars r'')
                  | None => None
                  end
              | _ => None
              end
            else
              match unescape e with
              | Some u => prepend u (string_chars r')
              | None => None
              end
        | [] => None
        end
      else if (c <? 32)%N then None
      else prepend c (string_chars r)
  end.

Definition digit_of (c : N) : option (uint -> uint) :=
  (if c =? 48 then Some D0 else if c =? 49 then Some D1
   else if c =? 50 then Some D2 else if c =? 51 then Some D3
   else if c =? 52 then Some D4 else if c =? 53 then Some D5
   else if c =? 54 then Some D6 else if c =? 55 then Some D7
   else if c =? 56 then Some D8 else if c =? 57 then Some D9
   else None)%N.

(** The longest run of digits at the head of a text. *)
Fixpoint scan_digits (s : jsstring) : uint * jsstring :=
  match s with
  | c :: r =>
      match digit_of c with
      | Some dk => let '(u, rest) := scan_digits r in (dk u, rest)
      | None => (Nil, s)
      end
  | [] => (Nil, [])
  end.

(** [m / 10^k] in lowest terms. *)
Fixpoint decimal (m : Z) (k : nat) : number :=
  match k with
  | O => NInt m
  | S k' => if m mod 10 =? 0 then decimal (m / 10) k' else NFrac m (Pos.of_nat k)
  end.

(** The number written with integer digits [ip], fraction digits [fp] and
    exponent [e]. *)
Definition mkNumber (neg : bool) (ip fp : uint) (e : Z) : number :=
  let m := Z.of_uint (Decimal.app ip fp) in
  let m := if neg then - m else m in
  let e := e - Z.of_nat (Decimal.nb_digits fp) in
  if 0 <=? e then NInt (m * 10 ^ e) else decimal m (Z.to_nat (- e)).

(** The integer part: a single 0, or digits that do not start with 0. *)
Definition scan_int (s : jsstring) : option (uint * jsstring) :=
  match s with
  | c :: r =>
      if (c =? 48)%N then Some (D0 Nil, r)
      else match scan_digits s with
           | (Nil, _) => None
           | (u, rest) => Some (u, rest)
           end
  | [] => None
  end.

Definition scan_frac (s : jsstring) : option (uint * jsstring) :=
  match s with
  | c :: r =>
      if (c =? DOT)%N then
        match scan_digits r with
        | (Nil, _) => None
        | (u, rest) => Some (u, rest)
        end
      else Some (Nil, s)
  | [] => Some (Nil, [])
  end.

Definition scan_exp_digits (neg : bool) (s : jsstring) : option (Z * jsstring) :=
  match scan_digits s with
  | (Nil, _) => None
  | (u, rest) => Some (if neg then - Z.of_uint u else Z.of_uint u, rest)
  end.

Definition scan_exp (s : jsstring) : option (Z * jsstring) :=
  match s with
  | c :: r =>
      if ((c =? 101) || (c =? 69))%N then
        match r with
        | sg :: r' =>
            if (sg =? MINUS)%N then scan_exp_digits true r'
            else if (sg =? PLUS)%N then scan_exp_digits false r'
            else scan_exp_digits false r
        | [] => None
        end
      else Some (0, s)
  | [] => Some (0, [])
  end.

(** The digits of a number, after the sign. *)
Definition parse_unsigned (neg : bool) (s1 : jsstring) : option (number * jsstring) :=
  '(ip, s2) ← scan_int s1;
  '(fp, s3) ← scan_frac s2;
  '(e, s4) ← scan_exp s3;
  Some (mkNumber neg ip fp e, s4).

Definition parse_number (s : jsstring) : option (number * jsstring) :=
  match s with
  | c :: r => if (c =? MINUS)%N then parse_unsigned true r else parse_unsigned false s
  | [] => None
  end.

(** A literal name: the text must continue with [name]. *)
Fixpoint expect (name s : jsstring) : option jsstring :=
  match name with
  | [] => Some s
  | c :: name' =>
      match s with
      | c' :: s' => if (c =? c')%N then expect name' s' else None
      | [] => None
      end
  end.

(** One step of the recursive descent for a value, for the elements of an
    array after its bracket and for the members of an object after its
    brace; [elements], [members] and [value] are the recursive calls. Each
    parser returns what it read and the text that follows. *)
Definition value_step
    (elements : jsstring -> option (list json * jsstring))
    (members : jsstring -> gmap jsstring json -> option (gmap jsstring json * jsstring))
    (s : jsstring) : option (json * jsstring) :=
  match skip_ws s with
  | [] => None
  | c :: r =>
      if (c =? 110)%N then r' ← expect (units "ull") r; Some (JNull, r')
      else if (c =? 116)%N then r' ← expect (units "rue") r; Some (JBool true, r')
      else if (c =? 102)%N then r' ← expect (units "alse") r; Some (JBool false, r')
      else if (c =? QUOTE)%N then '(str, r') ← string_chars r; Some (JStr str, r')
      else if (c =? LBRACKET)%N then
        match skip_ws r with
        | c' :: r' =>
            if (c' =? RBRACKET)%N then Some (JArr [], r')
            else '(vs, r'') ← elements (c' :: r'); Some (JArr vs, r'')
        | [] => None
        end
      else if (c =? LBRACE)%N then
        match skip_ws r with
        | c' :: r' =>
            if (c' =? RBRACE)%N then Some (JObj ∅, r')
            else '(m, r'') ← members (c' :: r') ∅; Some (JObj m, r'')
        | [] => None
        end
      else '(num, r') ← parse_number (c :: r); Some (JNum num, r')
  end.

Definition elements_step
    (value : jsstring -> option (json * jsstring))
    (elements : jsstring -> option (list json * jsstring))
    (s : jsstring) : option (list json * jsstring) :=
  '(v, r) ← value s;
  match skip_ws r with
  | c :: r' =>
      if (c =? COMMA)%N then '(vs, r'') ← elements r'; Some (v :: vs, r'')
      else if (c =? RBRACKET)%N then Some ([v], r')
      else None
  | [] => None
  end.

(** A key that occurs again replaces the earlier value. *)
Definition members_step
    (value : jsstring -> option (json * jsstring))
    (members : jsstring -> gmap jsstring json -> option (gmap jsstring json * jsstring))
    (s : jsstring) (acc : gmap jsstring json) :
    option (gmap jsstring json * jsstring) :=
  match skip_ws s with
  | c :: r =>
      if (c =? QUOTE)%N then
        '(k, r1) ← string_chars r;
        match skip_ws r1 with
        | c1 :: r2 =>
            if (c1 =? COLON)%N then
              '(v, r3) ← value r2;
              match skip_ws r3 with
              | c3 :: r4 =>
                  if (c3 =? COMMA)%N then members r4 (<[k:=v]> acc)
                  else if (c3 =? RBRACE)%N then Some (<[k:=v]> acc, r4)
                  else None
              | [] => None
              end
            else None
        | [] => None
        end
      else None
  | [] => None
  end.

(** The recursive descent, with [n] bounding the depth of the calls. *)
Fixpoint parse_value (n : nat) (s : jsstring) : option (json * jsstring) :=
  match n with
  | O => None
  | S n => value_step (parse_elements n) (parse_members n) s
  end
with parse_elements (n : nat) (s : jsstring) : option (list json * jsstring) :=
  match n with
  | O => None
  | S n => elements_step (parse_value n) (parse_elements n) s
  end
with parse_members (n : nat) (s : jsstring) (acc : gmap jsstring json) :
    option (gmap jsstring json * jsstring) :=
  match n with
  | O => None
  | S n => members_step (parse_value n) (parse_members n) s acc
  end.

(** A computation either completes with a value or throws. *)
Inductive jserror := SyntaxError.

Inductive completion (A : Type) :=
  | Normal (a : A)
  | Throw (e : jserror).
Arguments Normal {A} a.
Arguments Throw {A} e.

Definition try_catch {A} (body : completion A) (handler : jserror -> completion A) :
    completion A :=
  match body with
  | Normal a => Normal a
  | Throw e => handler e
  end.

(** [JSON.parse]: one value, with white space around it and nothing else;
    anything else is a [SyntaxError]. The depth of the descent never exceeds
    the length of the text by more than one ([JSON_parse_complete]). *)
Definition JSON_parse (text : jsstring) : completion json :=
  match parse_value (S (length text)) text with
  | Some (v, rest) =>
      match skip_ws rest with
      | [] => Normal v
      | _ :: _ => Throw SyntaxError
      end
  | None => Throw SyntaxError
  end.

(** ** Persistence (lines 44-54 and 71-74) *)

Abbreviation Storage := (gmap jsstring jsstring) (only parsing).

Definition storageKey : jsstring := units "jobApplicationHistory".

Definition getItem (k : jsstring) (st : Storage) : option jsstring := st !! k.
Definition setItem (k v : jsstring) (st : Storage) : Storage := <[k:=v]> st.

(** The load effect (lines 44-54). The state is typed [TrackerData[]], but
    what [JSON.parse] returns is stored in it unchecked, so the state after
    the effect is a JSON value. A stored text is falsy when it is absent or
    empty. *)
Definition loadEffect (isClient : bool) (localStorage : Storage) (history : json) :
    completion json :=
  if negb isClient then Normal history
  else
    try_catch
      (let storedData := getItem storageKey localStorage in
       match storedData with
       | Some (c :: text) => JSON_parse (c :: text)
       | _ => Normal (JArr [])
       end)
      (fun error => Normal (JArr [])).

(** The save effect (lines 71-74). *)
Definition saveEffect (isClient : bool) (history : History) (localStorage : Storage) :
    Storage :=
  if negb isClient || (length history =? 0)%nat then localStorage
  else setItem storageKey (JSON_stringify history) localStorage.

(** The JavaScript value of a history: an array of objects with the keys
    [date] and [count]. *)
Definition entryValue (e : TrackerData) : json :=
  JObj (<[units "count" := JNum (NInt (count e))]>
         (<[units "date" := JStr (date e)]> ∅)).

Definition historyValue (h : History) : json := JArr (map entryValue h).

(** The history that a value is, if it is one. *)
Definition asEntry (v : json) : option TrackerData :=
  match v with
  | JObj m =>
      match m !! units "date", m !! units "count" with
      | Some (JStr d), Some (JNum (NInt c)) => Some {| count := c; date := d |}
      | _, _ => None
      end
  | _ => None
  end.

Definition asHistory (v : json) : option History :=
  match v with
  | JArr l => mapM asEntry l
  | _ => None
  end.

(** A text is the JSON text of [v] when some depth of the descent reads
    [v] from it and leaves white space only. *)
Definition JSON_text_of (text : jsstring) (v : json) : Prop :=
  exists n rest, parse_value n text = Some (v, rest) /\ skip_ws rest = [].

(** A text that does not go on with a digit. *)
Definition no_digit_ahead (rest : jsstring) : Prop :=
  match rest with
  | c :: _ => digit_of c = None
  | [] => True
  end.

(** A text that does not go on with a digit, a fraction or an exponent. *)
Definition number_ends (rest : jsstring) : Prop :=
  match rest with
  | c :: _ => digit_of c = None /\ c <> 46%N /\ c <> 101%N /\ c <> 69%N
  | [] => True
  end.

(** ** The clock and the rendered list *)

(** One tick of the interval of [useDate] (lines 20-25): the date string
    that [setTodayDate] receives, if it is called. *)
Definition useDateTick (todayDate : jsstring) (now : CivilDate) : option jsstring :=
  let newDate := getTodayDateString now in
  if negb (bool_decide (newDate = todayDate)) then Some newDate else None.

(** The state of [useDate] after a tick. *)
Definition useDateState (todayDate : jsstring) (now : CivilDate) : jsstring :=
  match useDateTick todayDate now with
  | Some newDate => newDate
  | None => todayDate
  end.

(** The records listed under "Application History" (lines 194-198): the past
    days with a positive count. *)
Definition displayedHistory (todayDate : jsstring) (history : History) : History :=
  List.filter
    (fun entry => (count entry >? 0) && negb (bool_decide (date entry = todayDate)))
    history.

(** The days that the ensure-today effect has seen, oldest first, from a
    given history. *)
Definition observeDays (days : list jsstring) (history : History) : History :=
  fold_left (fun h d => ensureToday d h) days history.

(** The rounding of a number that is not negative, at the exponent [e]. *)
Definition roundAt (e a : Z) : Z :=
  let p := 2 ^ e in
  let q := a / p in
  let r := a mod p in
  (if 2 * r <? p then q else if p <? 2 * r then q + 1 else q + q mod 2) * p.

(** A number in the binary64 format of the standard library's [SpecFloat]. *)
Definition toSF (x : jsnum) : spec_float :=
  match x with
  | Finite z => binary_normalize 53 1024 z 0 false
  | Infinity s => S754_infinity s
  | NaN => S754_nan
  end.

(** Whether [Number_add] on two integers is the binary64 sum. *)
Definition agreesWithBinary64 (a b : Z) : bool :=
  match SFcompare (toSF (Number_add (Finite a) (Finite b)))
                  (SFadd 53 1024 (toSF (Finite a)) (toSF (Finite b))) with
  | Some Eq => true
  | _ => false
  end.

(** A sum of counts that are not negative: an integer that is a double and
    not negative, or the positive infinity. *)
Definition nonnegSum (x : jsnum) : Prop :=
  x = Infinity false \/ exists v, x = Finite v /\ 0 <= v /\ roundToDouble v = v.

(** Divisions by constants are handed to [lia] as their equations. *)
Ltac Zify.zify_post_hook ::= Z.to_euclidean_division_equations.

(** * Proofs *)

(** ** Rounding to a double *)

Lemma roundToDouble_small (z : Z) : Z.abs z < 2 ^ 53 -> roundToDouble z = z.
Proof.
  intros H. unfold roundToDouble.
  destruct (Z.leb_spec (Z.log2 (Z.abs z) - 52) 0) as [_|He]; [reflexivity|].
  exfalso. destruct (Z.eq_dec (Z.abs z) 0) as [E|E].
  - rewrite E in He. simpl in He. lia.
  - assert (Z.log2 (Z.abs z) < 53) by (apply Z.log2_lt_pow2; lia). lia.
Qed.

Lemma roundToDouble_exact (z : Z) : Z.abs z <= 2 ^ 53 -> roundToDouble z = z.
Proof.
  intros H. destruct (Z.eq_dec (Z.abs z) (2 ^ 53)) as [E|E].
  - destruct (Z.abs_eq_or_opp z) as [Ez|Ez]; rewrite Ez in E.
    + rewrite E. reflexivity.
    + replace z with (- 2 ^ 53) by lia. reflexivity.
  - apply roundToDouble_small. lia.
Qed.

Lemma roundToDouble_nonneg_eq (a : Z) :
  0 <= a ->
  roundToDouble a = if Z.log2 a - 52 <=? 0 then a else roundAt (Z.log2 a - 52) a.
Proof.
  intros Ha. unfold roundToDouble, roundAt. rewrite Z.abs_eq by exact Ha.
  destruct (Z.leb_spec (Z.log2 a - 52) 0) as [_|He]; [reflexivity|].
  assert (0 < a).
  { destruct (Z.eq_dec a 0) as [->|]; [simpl in He; lia|lia]. }
  rewrite Z.sgn_pos by assumption. lia.
Qed.

Lemma roundAt_bounds (e a : Z) :
  0 <= e -> 0 <= a ->
  a / 2 ^ e * 2 ^ e <= roundAt e a <= (a / 2 ^ e + 1) * 2 ^ e.
Proof.
  intros He Ha. unfold roundAt.
  assert (Hp : 0 < 2 ^ e) by (apply Z.pow_pos_nonneg; lia).
  pose proof (Z.mod_pos_bound (a / 2 ^ e) 2 ltac:(lia)) as Hm.
  set (q := a / 2 ^ e) in *. set (p := 2 ^ e) in *.
  destruct (2 * (a mod p) <? p); [nia|].
  destruct (p <? 2 * (a mod p)); nia.
Qed.

Lemma roundAt_mono (e a b : Z) :
  0 <= e -> 0 <= a <= b -> roundAt e a <= roundAt e b.
Proof.
  intros He Hab.
  assert (Hp : 0 < 2 ^ e) by (apply Z.pow_pos_nonneg; lia).
  destruct (Z.eq_dec (a / 2 ^ e) (b / 2 ^ e)) as [Eq|Ne].
  - unfold roundAt. rewrite <- Eq.
    pose proof (Z.div_mod a (2 ^ e) ltac:(lia)) as Da.
    pose proof (Z.div_mod b (2 ^ e) ltac:(lia)) as Db. rewrite <- Eq in Db.
    pose proof (Z.mod_pos_bound (a / 2 ^ e) 2 ltac:(lia)) as Hm.
    set (q := a / 2 ^ e) in *. set (p := 2 ^ e) in *.
    assert (Hr : a mod p <= b mod p) by lia.
    apply Z.mul_le_mono_nonneg_r; [lia|].
    destruct (Z.ltb_spec (2 * (a mod p)) p), (Z.ltb_spec (2 * (b mod p)) p); try lia;
      destruct (Z.ltb_spec p (2 * (a mod p))), (Z.ltb_spec p (2 * (b mod p))); lia.
  - assert (Hq : a / 2 ^ e < b / 2 ^ e).
    { pose proof (Z.div_le_mono a b (2 ^ e) Hp ltac:(lia)). lia. }
    pose proof (roundAt_bounds e a He ltac:(lia)) as [_ Ha].
    pose proof (roundAt_bounds e b He ltac:(lia)) as [Hb _].
    set (qa := a / 2 ^ e) in *. set (qb := b / 2 ^ e) in *. nia.
Qed.

Lemma exponent_range (a : Z) :
  0 < Z.log2 a - 52 ->
  2 ^ 52 * 2 ^ (Z.log2 a - 52) <= a < 2 ^ 53 * 2 ^ (Z.log2 a - 52).
Proof.
  intros He.
  assert (Ha : 0 < a).
  { destruct (Z.le_gt_cases a 0) as [H|H]; [|exact H].
    rewrite Z.log2_nonpos in He by exact H. lia. }
  pose proof (Z.log2_spec a Ha) as [H1 H2].
  rewrite <- !Z.pow_add_r by lia.
  replace (52 + (Z.log2 a - 52)) with (Z.log2 a) by lia.
  replace (53 + (Z.log2 a - 52)) with (Z.succ (Z.log2 a)) by lia. lia.
Qed.

Lemma roundToDouble_nonneg (a : Z) : 0 <= a -> 0 <= roundToDouble a.
Proof.
  intros Ha. rewrite roundToDouble_nonneg_eq by exact Ha.
  destruct (Z.leb_spec (Z.log2 a - 52) 0) as [_|He]; [exact Ha|].
  pose proof (roundAt_bounds (Z.log2 a - 52) a ltac:(lia) Ha) as [H _].
  assert (0 < 2 ^ (Z.log2 a - 52)) by (apply Z.pow_pos_nonneg; lia).
  assert (0 <= a / 2 ^ (Z.log2 a - 52)) by (apply Z.div_pos; lia). nia.
Qed.

Lemma roundToDouble_mono (a b : Z) :
  0 <= a <= b -> roundToDouble a <= roundToDouble b.
Proof.
  intros Hab. rewrite !roundToDouble_nonneg_eq by lia.
  pose proof (Z.log2_le_mono a b ltac:(lia)) as Hl.
  destruct (Z.leb_spec (Z.log2 a - 52) 0) as [Ea|Ea],
           (Z.leb_spec (Z.log2 b - 52) 0) as [Eb|Eb]; try lia.
  - (* a below 2^53, b above *)
    pose proof (exponent_range b Eb) as [Hb _].
    pose proof (roundAt_bounds (Z.log2 b - 52) b ltac:(lia) ltac:(lia)) as [H _].
    assert (Hp : 0 < 2 ^ (Z.log2 b - 52)) by (apply Z.pow_pos_nonneg; lia).
    assert (Hq : 2 ^ 52 <= b / 2 ^ (Z.log2 b - 52)).
    { apply Z.div_le_lower_bound; lia. }
    assert (a < 2 ^ 53).
    { destruct (Z.eq_dec a 0) as [->|]; [lia|]. apply Z.log2_lt_pow2; lia. }
    assert (2 <= 2 ^ (Z.log2 b - 52)).
    { change 2 with (2 ^ 1) at 1. apply Z.pow_le_mono_r; lia. }
    nia.
  - destruct (Z.eq_dec (Z.log2 a) (Z.log2 b)) as [E|E].
    + rewrite E. apply roundAt_mono; lia.
    + (* different exponents: 2^53 * 2^ea lies between *)
      pose proof (exponent_range a Ea) as [_ Ha].
      pose proof (exponent_range b Eb) as [Hb _].
      pose proof (roundAt_bounds (Z.log2 a - 52) a ltac:(lia) ltac:(lia)) as [_ H1].
      pose proof (roundAt_bounds (Z.log2 b - 52) b ltac:(lia) ltac:(lia)) as [H2 _].
      assert (Hpa : 0 < 2 ^ (Z.log2 a - 52)) by (apply Z.pow_pos_nonneg; lia).
      assert (Hpb : 0 < 2 ^ (Z.log2 b - 52)) by (apply Z.pow_pos_nonneg; lia).
      assert (Hqa : a / 2 ^ (Z.log2 a - 52) < 2 ^ 53).
      { apply Z.div_lt_upper_bound; lia. }
      assert (Hqb : 2 ^ 52 <= b / 2 ^ (Z.log2 b - 52)).
      { apply Z.div_le_lower_bound; lia. }
      assert (Hpp : 2 * 2 ^ (Z.log2 a - 52) <= 2 ^ (Z.log2 b - 52)).
      { rewrite <- Z.pow_succ_r by lia. apply Z.pow_le_mono_r; lia. }
      transitivity (2 ^ 53 * 2 ^ (Z.log2 a - 52)); [nia|].
      transitivity (2 ^ 52 * 2 ^ (Z.log2 b - 52)); [nia|nia].
Qed.

Lemma roundAt_multiple (e k : Z) :
  0 < e -> 0 <= k -> roundAt e (k * 2 ^ e) = k * 2 ^ e.
Proof.
  intros He Hk. unfold roundAt.
  assert (Hp : 0 < 2 ^ e) by (apply Z.pow_pos_nonneg; lia).
  rewrite Z.div_mul, Z.mod_mul by lia.
  destruct (Z.ltb_spec (2 * 0) (2 ^ e)); [reflexivity|lia].
Qed.

(** A multiple of [2^e] with a quotient of 53 bits is its own rounding. *)
Lemma roundToDouble_multiple (e k : Z) :
  0 < e -> 2 ^ 52 <= k <= 2 ^ 53 -> roundToDouble (k * 2 ^ e) = k * 2 ^ e.
Proof.
  intros He Hk.
  assert (Hp : 0 < 2 ^ e) by (apply Z.pow_pos_nonneg; lia).
  rewrite roundToDouble_nonneg_eq by nia.
  destruct (Z.eq_dec k (2 ^ 53)) as [->|Hne].
  - assert (El : Z.log2 (2 ^ 53 * 2 ^ e) = 53 + e).
    { rewrite <- Z.pow_add_r by lia. apply Z.log2_pow2. lia. }
    rewrite El. destruct (Z.leb_spec (53 + e - 52) 0); [lia|].
    replace (2 ^ 53 * 2 ^ e) with (2 ^ 52 * 2 ^ (53 + e - 52)).
    + apply roundAt_multiple; lia.
    + rewrite <- !Z.pow_add_r by lia. f_equal. lia.
  - assert (El : Z.log2 (k * 2 ^ e) = 52 + e).
    { rewrite Z.log2_mul_pow2 by lia.
      rewrite (Z.log2_unique k 52) by (change (Z.succ 52) with 53; lia). lia. }
    rewrite El. destruct (Z.leb_spec (52 + e - 52) 0); [lia|].
    replace (52 + e - 52) with e by lia. apply roundAt_multiple; lia.
Qed.

Lemma roundToDouble_idempotent (a : Z) :
  0 <= a -> roundToDouble (roundToDouble a) = roundToDouble a.
Proof.
  intros Ha. rewrite (roundToDouble_nonneg_eq a Ha).
  destruct (Z.leb_spec (Z.log2 a - 52) 0) as [E|E].
  - rewrite roundToDouble_nonneg_eq by exact Ha.
    destruct (Z.leb_spec (Z.log2 a - 52) 0); [reflexivity|lia].
  - pose proof (exponent_range a E) as [H1 H2].
    assert (Hp : 0 < 2 ^ (Z.log2 a - 52)) by (apply Z.pow_pos_nonneg; lia).
    assert (Hq1 : 2 ^ 52 <= a / 2 ^ (Z.log2 a - 52)).
    { apply Z.div_le_lower_bound; lia. }
    assert (Hq2 : a / 2 ^ (Z.log2 a - 52) < 2 ^ 53).
    { apply Z.div_lt_upper_bound; lia. }
    unfold roundAt.
    pose proof (Z.mod_pos_bound (a / 2 ^ (Z.log2 a - 52)) 2 ltac:(lia)) as Hm.
    set (q := a / 2 ^ (Z.log2 a - 52)) in *.
    apply roundToDouble_multiple; [exact E|].
    destruct (2 * (a mod 2 ^ (Z.log2 a - 52)) <? 2 ^ (Z.log2 a - 52)); [lia|].
    destruct (2 ^ (Z.log2 a - 52) <? 2 * (a mod 2 ^ (Z.log2 a - 52))); lia.
Qed.

(** ** Sums of numbers *)

Lemma pow53_below_limit : 2 ^ 53 < doubleLimit.
Proof. reflexivity. Qed.

Lemma overflow_small (z : Z) : Z.abs z <= 2 ^ 53 -> overflow z = Finite z.
Proof.
  intros H. unfold overflow. pose proof pow53_below_limit.
  destruct (Z.leb_spec doubleLimit (Z.abs z)); [lia|reflexivity].
Qed.

(** An addition whose exact sum has at most 53 bits is exact. *)
Lemma Number_add_exact (a b : Z) :
  Z.abs (a + b) <= 2 ^ 53 -> Number_add (Finite a) (Finite b) = Finite (a + b).
Proof.
  intros H. cbn [Number_add]. rewrite roundToDouble_exact by exact H.
  now apply overflow_small.
Qed.

Lemma sumAbs_nonneg (h : History) : 0 <= sumAbs h.
Proof. induction h as [|e h IH]; simpl; lia. Qed.

Lemma sumCounts_le_sumAbs (h : History) : Z.abs (sumCounts h) <= sumAbs h.
Proof. induction h as [|e h IH]; simpl; lia. Qed.

(** While the sizes of the counts sum to at most 2^53, the fold of the
    additions is the exact sum. *)
Lemma fold_sum (h : History) (a : Z) :
  Z.abs a + sumAbs h <= 2 ^ 53 ->
  fold_left addCount h (Finite a) = Finite (a + sumCounts h).
Proof.
  revert a. induction h as [|e h IH]; intros a Ha; cbn [fold_left sumCounts sumAbs] in *.
  - f_equal. lia.
  - pose proof (sumAbs_nonneg h). unfold addCount at 2.
    rewrite Number_add_exact by lia. rewrite IH by lia. f_equal. lia.
Qed.

Lemma sumAbs_filter (p : TrackerData -> bool) (h : History) :
  sumAbs (List.filter p h) <= sumAbs h.
Proof.
  induction h as [|e h IH]; [reflexivity|]. cbn [List.filter].
  destruct (p e); cbn [sumAbs]; lia.
Qed.

(** [Number_add] is the sum of the binary64 format on integers on both sides
    of 2^53 and of the largest double. *)
Example Number_add_is_binary64 :
  let samples := [0; 1; -1; 3; 2 ^ 52 + 1; 2 ^ 53 - 1; 2 ^ 53; 2 ^ 53 + 2; -(2 ^ 53);
                  2 ^ 54 + 4; 2 ^ 60 + 2 ^ 8; 2 ^ 970; 2 ^ 1023; 2 ^ 1024 - 2 ^ 971] in
  forallb (fun a => forallb (agreesWithBinary64 a) samples) samples = true.
Proof. vm_compute. reflexivity. Qed.

Lemma nonnegSum_zero : nonnegSum (Finite 0).
Proof. right. exists 0. split; [reflexivity|]. split; [lia|reflexivity]. Qed.

Lemma nonnegSum_add (x : jsnum) (c : Z) :
  nonnegSum x -> 0 <= c ->
  nonnegSum (Number_add x (Finite c)) /\
  Number_leb x (Number_add x (Finite c)) = true.
Proof.
  intros [->|(v & -> & Hv & Hr)] Hc; [split; [now left|reflexivity]|].
  cbn [Number_add]. unfold overflow.
  pose proof (roundToDouble_mono v (v + c) ltac:(lia)) as Hm. rewrite Hr in Hm.
  destruct (Z.leb_spec doubleLimit (Z.abs (roundToDouble (v + c)))).
  - replace (roundToDouble (v + c) <? 0) with false
      by (symmetry; apply Z.ltb_ge; lia).
    split; [now left|reflexivity].
  - split.
    + right. eexists. split; [reflexivity|].
      split; [lia|]. apply roundToDouble_idempotent. lia.
    + cbn [Number_leb]. now apply Z.leb_le.
Qed.

Lemma Number_leb_trans (x y z : jsnum) :
  Number_leb x y = true -> Number_leb y z = true -> Number_leb x z = true.
Proof.
  destruct x as [a|[]|], y as [b|[]|], z as [c|[]|]; cbn [Number_leb negb orb];
    try reflexivity; try discriminate.
  intros H1%Z.leb_le H2%Z.leb_le. apply Z.leb_le. lia.
Qed.

Lemma Number_add_mono (x y : jsnum) (c : Z) :
  nonnegSum x -> nonnegSum y -> Number_leb x y = true -> 0 <= c ->
  Number_leb (Number_add x (Finite c)) (Number_add y (Finite c)) = true.
Proof.
  intros [->|(a & -> & Ha & _)] [->|(b & -> & Hb & _)] Hle Hc;
    try reflexivity; try discriminate.
  - cbn [Number_add]. unfold overflow.
    pose proof (roundToDouble_nonneg (a + c) ltac:(lia)).
    destruct (Z.leb_spec doubleLimit (Z.abs (roundToDouble (a + c)))); [|reflexivity].
    replace (roundToDouble (a + c) <? 0) with false
      by (symmetry; apply Z.ltb_ge; lia).
    reflexivity.
  - cbn [Number_leb] in Hle. apply Z.leb_le in Hle.
    cbn [Number_add]. unfold overflow.
    pose proof (roundToDouble_nonneg (a + c) ltac:(lia)).
    pose proof (roundToDouble_nonneg (b + c) ltac:(lia)).
    pose proof (roundToDouble_mono (a + c) (b + c) ltac:(lia)).
    destruct (Z.leb_spec doubleLimit (Z.abs (roundToDouble (a + c)))),
             (Z.leb_spec doubleLimit (Z.abs (roundToDouble (b + c))));
      cbn [Number_leb]; try lia;
      repeat match goal with
             | |- context [?r <? 0] =>
                 replace (r <? 0) with false by (symmetry; apply Z.ltb_ge; lia)
             end;
      try reflexivity; apply Z.leb_le; lia.
Qed.

Lemma fold_nonnegSum (h : History) (x : jsnum) :
  nonnegSum x -> countsNonNegative h ->
  nonnegSum (fold_left addCount h x) /\
  Number_leb x (fold_left addCount h x) = true.
Proof.
  intros Hx Hh. revert x Hx. induction Hh as [|e h He _ IH]; intros x Hx.
  - split; [exact Hx|]. destruct Hx as [->|(v & -> & _)]; [reflexivity|].
    cbn. apply Z.leb_refl.
  - cbn [fold_left]. destruct (nonnegSum_add x (count e) Hx He) as [H1 H2].
    destruct (IH _ H1) as [H3 H4]. split; [exact H3|].
    eapply Number_leb_trans; [exact H2|exact H4].
Qed.

(** The fold over some of the records stays below the fold over all. *)
Lemma fold_filter_le (p : TrackerData -> bool) (h : History) (x y : jsnum) :
  nonnegSum x -> nonnegSum y -> Number_leb x y = true -> countsNonNegative h ->
  Number_leb (fold_left addCount (List.filter p h) x) (fold_left addCount h y) = true.
Proof.
  intros Hx Hy Hle Hh. revert x y Hx Hy Hle.
  induction Hh as [|e h He _ IH]; intros x y Hx Hy Hle; [exact Hle|].
  cbn [List.filter fold_left].
  destruct (nonnegSum_add y (count e) Hy He) as [Hy1 Hy2].
  destruct (p e); cbn [fold_left].
  - destruct (nonnegSum_add x (count e) Hx He) as [Hx1 _].
    apply IH; [exact Hx1|exact Hy1|]. now apply Number_add_mono.
  - apply IH; [exact Hx|exact Hy1|]. eapply Number_leb_trans; eassumption.
Qed.


(** ** Properties of the updaters *)

Section Updaters.
Variable d : jsstring.

Lemma hasTodayEntry_spec (h : History) :
  existsb (fun entry => bool_decide (date entry = d)) h = true <-> hasEntry d h.
Proof.
  unfold hasEntry. rewrite existsb_exists. split.
  - intros (e & He & Hd). exists e. split; [exact He|].
    now apply bool_decide_eq_true in Hd.
  - intros (e & He & Hd). exists e. split; [exact He|].
    now apply bool_decide_eq_true.
Qed.

Lemma ensureToday_absent (h : History) :
  ~ hasEntry d h -> ensureToday d h = {| date := d; count := 0 |} :: h.
Proof.
  intros Hno. unfold ensureToday.
  destruct (existsb _ h) eqn:E; [|reflexivity].
  apply hasTodayEntry_spec in E. contradiction.
Qed.

Lemma ensureToday_present (h : History) :
  hasEntry d h -> ensureToday d h = h.
Proof.
  intros Hyes. unfold ensureToday.
  apply hasTodayEntry_spec in Hyes. now rewrite Hyes.
Qed.

Lemma ensureToday_hasEntry (h : History) : hasEntry d (ensureToday d h).
Proof.
  unfold ensureToday. destruct (existsb _ h) eqn:E; simpl.
  - now apply hasTodayEntry_spec.
  - exists {| date := d; count := 0 |}. simpl. auto.
Qed.

Lemma incrementCount_dates (h : History) :
  map date (incrementCount d h) = map date h.
Proof.
  unfold incrementCount. rewrite map_map. apply map_ext.
  intros e. now destruct (bool_decide _).
Qed.

Lemma resetUpdater_dates (h : History) :
  map date (resetUpdater d h) = map date h.
Proof.
  unfold resetUpdater. rewrite map_map. apply map_ext.
  intros e. now destruct (bool_decide _).
Qed.

Lemma incrementCount_absent (h : History) :
  ~ hasEntry d h -> incrementCount d h = h.
Proof.
  intros Hno. unfold incrementCount.
  rewrite <- (map_id h) at 2. apply map_ext_in.
  intros e He. destruct (bool_decide _) eqn:E; [|reflexivity].
  apply bool_decide_eq_true in E. exfalso. apply Hno. now exists e.
Qed.
End Updaters.



(** ** The claims about the updaters *)

Lemma lookup_map {A B} (f : A -> B) (l : list A) (i : nat) :
  map f l !! i = f <$> l !! i.
Proof.
  revert i. induction l as [|a l IH]; intros [|i]; simpl; auto.
Qed.

(** C1. When the history has no record dated [d], [ensureToday d] puts the
    record of [d] with count 0 in front of the history and leaves the rest
    as it is; when the history has a record dated [d], it returns the
    history unchanged. *)
Theorem ensureToday_spec (H : History) (d : jsstring) :
  (~ hasEntry d H -> ensureToday d H = {| date := d; count := 0 |} :: H) /\
  (hasEntry d H -> ensureToday d H = H).
Proof.
  split; [apply ensureToday_absent | apply ensureToday_present].
Qed.

Lemma ensureToday_spec_witness :
  ensureToday (units "2024-06-10") [] =
    [{| date := units "2024-06-10"; count := 0 |}] /\
  ensureToday (units "2024-06-10") [{| date := units "2024-06-10"; count := 3 |}] =
    [{| date := units "2024-06-10"; count := 3 |}].
Proof.
  split.
  - apply (proj1 (ensureToday_spec [] (units "2024-06-10"))).
    intros (e & He & _). inversion He.
  - apply (proj2 (ensureToday_spec
             [{| date := units "2024-06-10"; count := 3 |}] (units "2024-06-10"))).
    eexists. split; [left; reflexivity | reflexivity].
Defined.

(** C2. [ensureToday] is idempotent: applying it twice for the same date
    gives the same history as applying it once. *)
Theorem ensureToday_idempotent (H : History) (d : jsstring) :
  ensureToday d (ensureToday d H) = ensureToday d H.
Proof.
  apply ensureToday_present, ensureToday_hasEntry.
Qed.

(** C7, as the code has it. [incrementCount d] keeps the length and the
    order of the history; it adds exactly 1 to the count of a record dated
    [d] whose count is an integer from -2^53 to 2^53 - 1, and leaves every
    other record as it is; on a history without a record dated [d] it is
    the identity. *)
Theorem incrementCount_spec (H : History) (d : jsstring) :
  length (incrementCount d H) = length H /\
  (forall i e, H !! i = Some e ->
     (date e = d -> - 2 ^ 53 <= count e < 2 ^ 53 ->
        incrementCount d H !! i = Some {| count := count e + 1; date := d |}) /\
     (date e <> d -> incrementCount d H !! i = Some e)) /\
  (~ hasEntry d H -> incrementCount d H = H).
Proof.
  split; [apply length_map|]. split; [|apply incrementCount_absent].
  intros i e Hi. unfold incrementCount. rewrite lookup_map, Hi. simpl.
  split.
  - intros Hd Hc. rewrite bool_decide_eq_true_2 by exact Hd.
    rewrite roundToDouble_exact by lia. now rewrite Hd.
  - intros Hd. now rewrite bool_decide_eq_false_2 by exact Hd.
Qed.

Lemma incrementCount_spec_witness :
  incrementCount (units "2024-06-10")
    [{| date := units "2024-06-10"; count := 3 |};
     {| date := units "2024-06-09"; count := 5 |}] !! 0%nat =
    Some {| count := 3 + 1; date := units "2024-06-10" |} /\
  incrementCount (units "2024-06-10")
    [{| date := units "2024-06-10"; count := 3 |};
     {| date := units "2024-06-09"; count := 5 |}] !! 1%nat =
    Some {| date := units "2024-06-09"; count := 5 |} /\
  incrementCount (units "2024-06-10") [{| date := units "2024-06-09"; count := 5 |}] =
    [{| date := units "2024-06-09"; count := 5 |}].
Proof.
  pose (d := units "2024-06-10").
  pose (h := [{| date := units "2024-06-10"; count := 3 |};
              {| date := units "2024-06-09"; count := 5 |}]).
  split; [|split].
  - apply (proj1 (proj1 (proj2 (incrementCount_spec h d)) 0%nat
                    {| date := units "2024-06-10"; count := 3 |} eq_refl)).
    + reflexivity.
    + simpl. lia.
  - apply (proj2 (proj1 (proj2 (incrementCount_spec h d)) 1%nat
                    {| date := units "2024-06-09"; count := 5 |} eq_refl)).
    simpl. intros E. discriminate E.
  - apply (proj2 (proj2 (incrementCount_spec
                           [{| date := units "2024-06-09"; count := 5 |}] d))).
    intros (e & [<-|[]] & E). discriminate E.
Defined.

(** C7, as the claim states it, fails on a count of 2^53: the sum 2^53 + 1
    is not a double and rounds to 2^53, so the click leaves the record as it
    is. *)
Lemma incrementCount_rounds :
  incrementCount (units "2024-06-10")
    [{| count := 2 ^ 53; date := units "2024-06-10" |}] =
    [{| count := 2 ^ 53; date := units "2024-06-10" |}] /\
  incrementCount (units "2024-06-10")
    [{| count := 2 ^ 53; date := units "2024-06-10" |}] <>
    [{| count := 2 ^ 53 + 1; date := units "2024-06-10" |}].
Proof.
  split; [vm_compute; reflexivity|]. vm_compute. intros E. discriminate E.
Qed.

(** C8. On a history with a record dated [d], [incrementCount d] followed
    by the confirmed [resetCount d] gives a history of the same length in
    which a record dated [d] has count 0 and every record of another date
    is the same record at the same position. *)
Theorem increment_then_reset (H : History) (d : jsstring) :
  hasEntry d H ->
  let H' := resetCount true d (incrementCount d H) in
  length H' = length H /\
  hasEntry d H' /\
  (forall e', In e' H' -> date e' = d -> count e' = 0) /\
  (forall i e, H !! i = Some e ->
     (date e = d -> H' !! i = Some {| count := 0; date := d |}) /\
     (date e <> d -> H' !! i = Some e)).
Proof.
  intros Hd H'.
  assert (Hlook : forall i e, H !! i = Some e ->
     (date e = d -> H' !! i = Some {| count := 0; date := d |}) /\
     (date e <> d -> H' !! i = Some e)).
  { intros i e Hi. subst H'. unfold resetCount; cbv iota.
    unfold resetUpdater, incrementCount.
    rewrite !lookup_map, Hi. simpl. split; intros E.
    - rewrite (bool_decide_eq_true_2 _ E). simpl.
      rewrite (bool_decide_eq_true_2 _ E). now rewrite E.
    - rewrite (bool_decide_eq_false_2 _ E).
      now rewrite (bool_decide_eq_false_2 _ E). }
  split; [|split; [|split]]; [| | |exact Hlook].
  - subst H'. unfold resetCount; cbv iota.
    unfold resetUpdater, incrementCount. now rewrite !length_map.
  - destruct Hd as (e & He & E).
    apply list_elem_of_In, list_elem_of_lookup in He as (i & Hi).
    exists {| count := 0; date := d |}. split; [|reflexivity].
    apply list_elem_of_In, list_elem_of_lookup. exists i.
    now apply (Hlook i e Hi).
  - intros e' He' E.
    subst H'. unfold resetCount in He'; cbv iota in He'.
    unfold resetUpdater in He'.
    apply in_map_iff in He' as (e & <- & _).
    destruct (bool_decide (date e = d)) eqn:B; [reflexivity|].
    apply bool_decide_eq_false in B. contradiction.
Qed.

Lemma increment_then_reset_witness :
  resetCount true (units "2024-06-10")
    (incrementCount (units "2024-06-10")
       [{| date := units "2024-06-10"; count := 3 |};
        {| date := units "2024-06-09"; count := 5 |}]) !! 1%nat =
    Some {| date := units "2024-06-09"; count := 5 |}.
Proof.
  pose (d := units "2024-06-10").
  pose (h := [{| date := units "2024-06-10"; count := 3 |};
              {| date := units "2024-06-09"; count := 5 |}]).
  assert (Hd : hasEntry d h).
  { eexists. split; [left; reflexivity | reflexivity]. }
  apply (proj2 (proj2 (proj2 (proj2 (increment_then_reset h d Hd))) 1%nat
                  {| date := units "2024-06-09"; count := 5 |} eq_refl)).
  simpl. intros E. discriminate E.
Defined.

(** C10. [ensureToday], [incrementCount] and [resetCount] preserve the
    invariants of the history: from a history with at most one record per
    date and no negative count they give a history with at most one record
    per date and no negative count. *)
Theorem updaters_preserve_invariant (H : History) (d : jsstring) (confirmed : bool) :
  historyInvariant H ->
  historyInvariant (ensureToday d H) /\
  historyInvariant (incrementCount d H) /\
  historyInvariant (resetCount confirmed d H).
Proof.
  intros [Hu Hc]. unfold historyInvariant, datesUnique, countsNonNegative in *.
  split; [|split].
  - unfold ensureToday. destruct (existsb _ H) eqn:E; simpl; [now split|].
    split.
    + apply NoDup_cons. split; [|exact Hu].
      intros Hin. apply list_elem_of_In, in_map_iff in Hin as (e & He1 & He2).
      assert (Hex : hasEntry d H) by now exists e.
      apply hasTodayEntry_spec in Hex. congruence.
    + apply Forall_cons. split; [simpl; lia | exact Hc].
  - rewrite incrementCount_dates. split; [exact Hu|].
    unfold incrementCount. apply Forall_forall. intros e' He'.
    apply list_elem_of_In, in_map_iff in He' as (e & <- & He).
    rewrite Forall_forall in Hc. apply list_elem_of_In, Hc in He.
    destruct (bool_decide _); simpl; [|lia].
    apply roundToDouble_nonneg. lia.
  - destruct confirmed; simpl; [|now split].
    rewrite resetUpdater_dates. split; [exact Hu|].
    unfold resetUpdater. apply Forall_forall. intros e' He'.
    apply list_elem_of_In, in_map_iff in He' as (e & <- & He).
    rewrite Forall_forall in Hc. apply list_elem_of_In, Hc in He.
    destruct (bool_decide _); simpl; lia.
Qed.

Lemma updaters_preserve_invariant_witness :
  historyInvariant (ensureToday (units "2024-06-10")
                      [{| date := units "2024-06-09"; count := 5 |}]) /\
  historyInvariant (incrementCount (units "2024-06-10")
                      [{| date := units "2024-06-09"; count := 5 |}]) /\
  historyInvariant (resetCount true (units "2024-06-10")
                      [{| date := units "2024-06-09"; count := 5 |}]).
Proof.
  apply (updaters_preserve_invariant
           [{| date := units "2024-06-09"; count := 5 |}] (units "2024-06-10") true).
  split.
  - apply NoDup_cons. split; [apply not_elem_of_nil | apply NoDup_nil; exact I].
  - apply Forall_cons. split; [simpl; lia | apply Forall_nil; exact I].
Defined.

(** ** The claims about [total] and [bestDay] *)


Lemma total_is_fold (now : CivilDate) (h : History) :
  total (summaryStats now h) = fold_left addCount h (Finite 0).
Proof. destruct h as [|e h]; reflexivity. Qed.

Lemma last7_is_fold (now : CivilDate) (h : History) :
  last7DaysTotal (summaryStats now h) =
    fold_left addCount
      (List.filter
         (fun entry => str_ge (date entry)
            (toLocaleDateString_enCA (setDate now (getDate now - 6)))) h)
      (Finite 0).
Proof. destruct h as [|e h]; reflexivity. Qed.

(** C9, as the code has it. For every history whose counts are integers
    with sizes that sum to at most 2^53, [total] is the sum of the counts of
    the records of the history; it is 0 for the empty history. *)
Theorem total_spec (now : CivilDate) (H : History) :
  (sumAbs H <= 2 ^ 53 -> total (summaryStats now H) = Finite (sumCounts H)) /\
  total (summaryStats now []) = Finite 0.
Proof.
  split; [|reflexivity].
  intros Hb. rewrite total_is_fold, fold_sum by (simpl; lia). f_equal.
Qed.

Lemma total_spec_witness :
  total (summaryStats (mkDate 2024 6 10)
           [{| count := 2; date := units "2024-06-10" |};
            {| count := 3; date := units "2024-06-04" |}]) = Finite (2 + (3 + 0)).
Proof.
  apply (proj1 (total_spec (mkDate 2024 6 10)
                  [{| count := 2; date := units "2024-06-10" |};
                   {| count := 3; date := units "2024-06-04" |}])).
  simpl. lia.
Defined.

(** C9, as the claim states it, fails once a sum passes 2^53: for the counts
    2^53 and 1 the addition rounds and [total] is 2^53, not their sum. *)
Lemma total_rounds :
  total (summaryStats (mkDate 2024 6 10)
           [{| count := 2 ^ 53; date := units "2024-06-10" |};
            {| count := 1; date := units "2024-06-09" |}]) = Finite (2 ^ 53) /\
  total (summaryStats (mkDate 2024 6 10)
           [{| count := 2 ^ 53; date := units "2024-06-10" |};
            {| count := 1; date := units "2024-06-09" |}]) <>
  Finite (sumCounts [{| count := 2 ^ 53; date := units "2024-06-10" |};
                     {| count := 1; date := units "2024-06-09" |}]).
Proof.
  split; [vm_compute; reflexivity|]. vm_compute. intros E. discriminate E.
Qed.

(** No record above the accumulator: the accumulator stays. *)
Lemma best_stays (h : History) (acc : TrackerData) :
  Forall (fun e => count e <= count acc) h -> fold_left largerCount h acc = acc.
Proof.
  induction 1 as [|e h He _ IH]; simpl; [reflexivity|].
  unfold largerCount at 2. destruct (Z.gtb_spec (count e) (count acc)); [lia|].
  exact IH.
Qed.

(** Records below [c] keep the accumulator below [c]. *)
Lemma best_below (h : History) (acc : TrackerData) (c : Z) :
  count acc < c -> Forall (fun e => count e < c) h ->
  count (fold_left largerCount h acc) < c.
Proof.
  intros Hacc Hh. revert acc Hacc.
  induction Hh as [|e h He _ IH]; intros acc Hacc; simpl; [exact Hacc|].
  apply IH. unfold largerCount. now destruct (count e >? count acc).
Qed.

Lemma best_first_max (pre post : History) (m acc : TrackerData) :
  count acc < count m ->
  Forall (fun e => count e < count m) pre ->
  Forall (fun e => count e <= count m) post ->
  fold_left largerCount (pre ++ m :: post) acc = m.
Proof.
  intros Hacc Hpre Hpost. rewrite fold_left_app. simpl.
  pose proof (best_below pre acc (count m) Hacc Hpre) as Hlt.
  unfold largerCount at 2.
  destruct (Z.gtb_spec (count m) (count (fold_left largerCount pre acc))); [|lia].
  now apply best_stays.
Qed.

(** C6, as the code has it. [bestDay] of the empty history is the bare
    count 0. When the first record of the largest count has a positive
    count, [bestDay] is that record. When the history has records and none
    has a positive count, [bestDay] is the starting value of the reduction,
    a count of 0 with an empty date, which is not a record of the history. *)
Theorem bestDay_spec (now : CivilDate) (H : History) :
  (H = [] -> bestDay (summaryStats now H) = CountOnly 0) /\
  (forall m, firstMaxOf H m -> 0 < count m ->
     bestDay (summaryStats now H) = Entry m) /\
  (H <> [] -> Forall (fun e => count e <= 0) H ->
     bestDay (summaryStats now H) = Entry {| count := 0; date := [] |}).
Proof.
  split; [intros ->; reflexivity|]. split.
  - intros m (pre & post & -> & Hpre & Hpost) Hm.
    unfold summaryStats.
    destruct (pre ++ m :: post) as [|e0 rest] eqn:E;
      [now destruct pre|].
    cbn [length Nat.eqb bestDay]. rewrite <- E. f_equal.
    now apply best_first_max.
  - intros Hne Hall. destruct H as [|e0 rest]; [congruence|].
    unfold summaryStats. cbn [length Nat.eqb bestDay]. f_equal.
    now apply best_stays.
Qed.

Lemma bestDay_spec_witness :
  bestDay (summaryStats (mkDate 2024 6 10)
             [{| count := 2; date := units "2024-06-10" |};
              {| count := 3; date := units "2024-06-04" |};
              {| count := 3; date := units "2024-06-03" |}]) =
    Entry {| count := 3; date := units "2024-06-04" |} /\
  bestDay (summaryStats (mkDate 2024 6 10)
             [{| count := 0; date := units "2024-06-10" |}]) =
    Entry {| count := 0; date := [] |} /\
  bestDay (summaryStats (mkDate 2024 6 10) []) = CountOnly 0.
Proof.
  split; [|split].
  - apply (proj1 (proj2 (bestDay_spec (mkDate 2024 6 10) _))); [|simpl; lia].
    exists [{| count := 2; date := units "2024-06-10" |}],
           [{| count := 3; date := units "2024-06-03" |}].
    split; [reflexivity|]. split.
    + apply Forall_cons. split; [simpl; lia | apply Forall_nil; exact I].
    + apply Forall_cons. split; [simpl; lia | apply Forall_nil; exact I].
  - apply (proj2 (proj2 (bestDay_spec (mkDate 2024 6 10) _))); [discriminate|].
    apply Forall_cons. split; [simpl; lia | apply Forall_nil; exact I].
  - now apply (proj1 (bestDay_spec (mkDate 2024 6 10) [])).
Defined.

(** C6, as the claim states it, fails on the history that [ensureToday]
    makes from the empty one: its only record is the first record of the
    largest count, and [bestDay] is not that record. *)
Lemma bestDay_not_a_record :
  firstMaxOf [{| count := 0; date := units "2024-06-10" |}]
             {| count := 0; date := units "2024-06-10" |} /\
  bestDay (summaryStats (mkDate 2024 6 10)
             (ensureToday (units "2024-06-10") [])) <>
    Entry {| count := 0; date := units "2024-06-10" |}.
Proof.
  split.
  - exists [], []. split; [reflexivity|]. split; apply Forall_nil; exact I.
  - vm_compute. intros E. discriminate E.
Qed.

(** ** Dates as text and as days *)

Lemma range_check (P : Z -> bool) (lo n : Z) :
  forallb (fun k => P (lo + Z.of_nat k)) (seq 0 (Z.to_nat n)) = true ->
  forall x, lo <= x < lo + n -> P x = true.
Proof.
  intros Hall x Hx. rewrite forallb_forall in Hall.
  replace x with (lo + Z.of_nat (Z.to_nat (x - lo))) by lia.
  apply Hall, in_seq. lia.
Qed.

Lemma year_text (y : Z) : 1000 <= y <= 9999 -> Number_toString y = fixed4 y.
Proof.
  intros Hy.
  assert (Hall : forallb (fun k => bool_decide (Number_toString (1000 + Z.of_nat k) =
                                                fixed4 (1000 + Z.of_nat k)))
                   (seq 0 (Z.to_nat 9000)) = true) by (vm_compute; reflexivity).
  pose proof (range_check (fun y => bool_decide (Number_toString y = fixed4 y))
                1000 9000 Hall y ltac:(lia)) as Hb.
  now apply bool_decide_eq_true in Hb.
Qed.

Lemma pad2_text (n : Z) : 0 <= n <= 99 -> pad2 n = fixed2 n.
Proof.
  intros Hn.
  assert (Hall : forallb (fun k => bool_decide (pad2 (0 + Z.of_nat k) =
                                                fixed2 (0 + Z.of_nat k)))
                   (seq 0 (Z.to_nat 100)) = true) by (vm_compute; reflexivity).
  pose proof (range_check (fun n => bool_decide (pad2 n = fixed2 n))
                0 100 Hall n ltac:(lia)) as Hb.
  now apply bool_decide_eq_true in Hb.
Qed.

Lemma digit_compare (p q : Z) (r1 r2 : jsstring) :
  0 <= p <= 9 -> 0 <= q <= 9 ->
  str_compare (digit p :: r1) (digit q :: r2) =
    match p ?= q with Eq => str_compare r1 r2 | c => c end.
Proof.
  intros Hp Hq. simpl. unfold digit.
  destruct (Z.compare_spec p q) as [E|E|E].
  - subst. now rewrite N.compare_refl.
  - replace (_ ?= _)%N with Lt; [reflexivity|]. symmetry. apply N.compare_lt_iff. lia.
  - replace (_ ?= _)%N with Gt; [reflexivity|]. symmetry. apply N.compare_gt_iff. lia.
Qed.

Lemma fixed4_compare (x y : Z) (r1 r2 : jsstring) :
  1000 <= x <= 9999 -> 1000 <= y <= 9999 ->
  str_compare (fixed4 x ++ r1) (fixed4 y ++ r2) =
    match x ?= y with Eq => str_compare r1 r2 | c => c end.
Proof.
  intros Hx Hy. unfold fixed4. cbn [app].
  rewrite digit_compare by lia.
  destruct (Z.compare_spec (x / 1000) (y / 1000)) as [E1|E1|E1].
  2:{ replace (x ?= y) with Lt; [reflexivity|]. symmetry. apply Z.compare_lt_iff. lia. }
  2:{ replace (x ?= y) with Gt; [reflexivity|]. symmetry. apply Z.compare_gt_iff. lia. }
  rewrite digit_compare by lia.
  destruct (Z.compare_spec ((x / 100) mod 10) ((y / 100) mod 10)) as [E2|E2|E2].
  2:{ replace (x ?= y) with Lt; [reflexivity|]. symmetry. apply Z.compare_lt_iff. lia. }
  2:{ replace (x ?= y) with Gt; [reflexivity|]. symmetry. apply Z.compare_gt_iff. lia. }
  rewrite digit_compare by lia.
  destruct (Z.compare_spec ((x / 10) mod 10) ((y / 10) mod 10)) as [E3|E3|E3].
  2:{ replace (x ?= y) with Lt; [reflexivity|]. symmetry. apply Z.compare_lt_iff. lia. }
  2:{ replace (x ?= y) with Gt; [reflexivity|]. symmetry. apply Z.compare_gt_iff. lia. }
  rewrite digit_compare by lia.
  destruct (Z.compare_spec (x mod 10) (y mod 10)) as [E4|E4|E4].
  2:{ replace (x ?= y) with Lt; [reflexivity|]. symmetry. apply Z.compare_lt_iff. lia. }
  2:{ replace (x ?= y) with Gt; [reflexivity|]. symmetry. apply Z.compare_gt_iff. lia. }
  replace (x ?= y) with Eq; [reflexivity|]. symmetry. apply Z.compare_eq_iff. lia.
Qed.

Lemma fixed2_compare (x y : Z) (r1 r2 : jsstring) :
  0 <= x <= 99 -> 0 <= y <= 99 ->
  str_compare (fixed2 x ++ r1) (fixed2 y ++ r2) =
    match x ?= y with Eq => str_compare r1 r2 | c => c end.
Proof.
  intros Hx Hy. unfold fixed2. cbn [app].
  rewrite digit_compare by lia.
  destruct (Z.compare_spec (x / 10) (y / 10)) as [E1|E1|E1].
  2:{ replace (x ?= y) with Lt; [reflexivity|]. symmetry. apply Z.compare_lt_iff. lia. }
  2:{ replace (x ?= y) with Gt; [reflexivity|]. symmetry. apply Z.compare_gt_iff. lia. }
  rewrite digit_compare by lia.
  destruct (Z.compare_spec (x mod 10) (y mod 10)) as [E4|E4|E4].
  2:{ replace (x ?= y) with Lt; [reflexivity|]. symmetry. apply Z.compare_lt_iff. lia. }
  2:{ replace (x ?= y) with Gt; [reflexivity|]. symmetry. apply Z.compare_gt_iff. lia. }
  replace (x ?= y) with Eq; [reflexivity|]. symmetry. apply Z.compare_eq_iff. lia.
Qed.

Lemma month_cases (m : Z) :
  1 <= m <= 12 ->
  m = 1 \/ m = 2 \/ m = 3 \/ m = 4 \/ m = 5 \/ m = 6 \/
  m = 7 \/ m = 8 \/ m = 9 \/ m = 10 \/ m = 11 \/ m = 12.
Proof. lia. Qed.

Ltac month_split H :=
  apply month_cases in H;
  destruct H as [H|[H|[H|[H|[H|[H|[H|[H|[H|[H|[H|H]]]]]]]]]]]; rewrite H in *.

Lemma daysBeforeMonth_next (y m : Z) :
  1 <= m <= 12 ->
  daysBeforeMonth y (m + 1) = daysBeforeMonth y m + daysInMonth y m.
Proof.
  intros Hm. month_split Hm; unfold daysBeforeMonth, daysInMonth; simpl;
    destruct (isLeapYear y); simpl; lia.
Qed.

Lemma daysInMonth_bounds (y m : Z) : 28 <= daysInMonth y m <= 31.
Proof.
  unfold daysInMonth.
  destruct (m =? 2); [destruct (isLeapYear y); lia|].
  destruct (_ || _); lia.
Qed.

Lemma daysBeforeMonth_mono (y m m' : Z) :
  1 <= m -> m < m' -> m' <= 12 ->
  daysBeforeMonth y m + daysInMonth y m <= daysBeforeMonth y m'.
Proof.
  intros H1 H2 H3.
  assert (Hm : 1 <= m <= 12) by lia. assert (Hm' : 1 <= m' <= 12) by lia.
  month_split Hm; month_split Hm'; try lia;
    unfold daysBeforeMonth, daysInMonth; simpl; destruct (isLeapYear y); simpl; lia.
Qed.

Lemma daysBeforeMonth_year (y : Z) :
  daysBeforeMonth y 12 + 31 = yearLength y.
Proof.
  unfold daysBeforeMonth, daysInMonth, yearLength; simpl.
  destruct (isLeapYear y); simpl; lia.
Qed.

Lemma daysBeforeYear_succ (y : Z) :
  daysBeforeYear (y + 1) = daysBeforeYear y + yearLength y.
Proof.
  unfold daysBeforeYear, yearLength, isLeapYear.
  replace (y + 1 - 1) with y by lia.
  destruct (Z.eqb_spec (y mod 4) 0), (Z.eqb_spec (y mod 100) 0),
    (Z.eqb_spec (y mod 400) 0); simpl; lia.
Qed.

Lemma daysBeforeYear_mono (y1 y2 : Z) :
  y1 <= y2 -> daysBeforeYear y1 <= daysBeforeYear y2.
Proof.
  unfold daysBeforeYear. lia.
Qed.

Lemma dayNumber_bounds (t : CivilDate) :
  validDate t ->
  daysBeforeYear (year t) < dayNumber t <= daysBeforeYear (year t + 1).
Proof.
  intros (Hy & Hm & Hd). unfold dayNumber. rewrite daysBeforeYear_succ.
  rewrite <- daysBeforeMonth_year.
  assert (0 <= daysBeforeMonth (year t) (month t)).
  { month_split Hm; unfold daysBeforeMonth, daysInMonth; simpl;
      destruct (isLeapYear (year t)); simpl; lia. }
  assert (daysBeforeMonth (year t) (month t) + daysInMonth (year t) (month t)
          <= daysBeforeMonth (year t) 12 + 31).
  { destruct (Z.eq_dec (month t) 12) as [E|E].
    - rewrite E. unfold daysInMonth. simpl. lia.
    - pose proof (daysBeforeMonth_mono (year t) (month t) 12). lia. }
  lia.
Qed.

Lemma dayNumber_lt (a b : CivilDate) :
  validDate a -> validDate b -> dateCompare a b = Lt -> dayNumber a < dayNumber b.
Proof.
  intros Ha Hb. unfold dateCompare.
  destruct (Z.compare_spec (year a) (year b)) as [Ey|Ey|Ey]; [| |discriminate].
  - destruct (Z.compare_spec (month a) (month b)) as [Em|Em|Em]; [| |discriminate].
    + intros Hd. change (day a < day b) in Hd.
      unfold dayNumber. rewrite Ey, Em. lia.
    + intros _. unfold dayNumber. rewrite Ey.
      destruct Ha as (_ & Hma & Hda), Hb as (_ & Hmb & Hdb).
      pose proof (daysBeforeMonth_mono (year b) (month a) (month b)).
      rewrite Ey in Hda. lia.
  - intros _.
    pose proof (dayNumber_bounds a Ha). pose proof (dayNumber_bounds b Hb).
    pose proof (daysBeforeYear_mono (year a + 1) (year b)). lia.
Qed.

Lemma dateCompare_antisym (a b : CivilDate) :
  dateCompare b a = CompOpp (dateCompare a b).
Proof.
  unfold dateCompare.
  rewrite (Z.compare_antisym (year a)), (Z.compare_antisym (month a)),
    (Z.compare_antisym (day a)).
  destruct (year a ?= year b); simpl; auto.
  destruct (month a ?= month b); simpl; auto.
Qed.

Lemma dayNumber_compare (a b : CivilDate) :
  validDate a -> validDate b -> (dayNumber a ?= dayNumber b) = dateCompare a b.
Proof.
  intros Ha Hb. destruct (dateCompare a b) eqn:E.
  - apply Z.compare_eq_iff. unfold dateCompare in E.
    destruct (Z.compare_spec (year a) (year b)); try discriminate.
    destruct (Z.compare_spec (month a) (month b)); try discriminate.
    apply Z.compare_eq_iff in E. unfold dayNumber. congruence.
  - apply Z.compare_lt_iff. now apply dayNumber_lt.
  - apply Z.compare_gt_iff. apply dayNumber_lt; auto.
    rewrite dateCompare_antisym, E. reflexivity.
Qed.

Lemma str_compare_dates (a b : CivilDate) :
  validDate a -> validDate b ->
  str_compare (toLocaleDateString_enCA a) (toLocaleDateString_enCA b) = dateCompare a b.
Proof.
  intros (Hya & Hma & Hda) (Hyb & Hmb & Hdb).
  pose proof (daysInMonth_bounds (year a) (month a)).
  pose proof (daysInMonth_bounds (year b) (month b)).
  unfold toLocaleDateString_enCA, dateCompare.
  rewrite !year_text, !pad2_text by lia.
  rewrite fixed4_compare by lia.
  destruct (year a ?= year b); try reflexivity.
  cbn [str_compare]. rewrite N.compare_refl.
  rewrite fixed2_compare by lia.
  destruct (month a ?= month b); try reflexivity.
  cbn [str_compare]. rewrite N.compare_refl.
  rewrite <- (app_nil_r (fixed2 (day a))), <- (app_nil_r (fixed2 (day b))).
  rewrite fixed2_compare by lia.
  now destruct (day a ?= day b).
Qed.

(** [setDate(getDate() - 6)] is the date six days earlier. *)
Lemma sevenDaysAgo_spec (t : CivilDate) :
  validDate t -> 1000 < year t ->
  validDate (setDate t (getDate t - 6)) /\
  dayNumber (setDate t (getDate t - 6)) = dayNumber t - 6.
Proof.
  intros (Hy & Hm & Hd) Hy'. unfold setDate, getDate.
  pose proof (daysInMonth_bounds (year t) (month t)).
  destruct (Z.leb_spec 1 (day t - 6)) as [L|L].
  - split; [repeat split; simpl; lia|]. unfold dayNumber. simpl. lia.
  - destruct (Z.eqb_spec (month t) 1) as [E|E].
    + pose proof (daysInMonth_bounds (year t - 1) 12).
      split; [repeat split; simpl; try lia; unfold daysInMonth; simpl; lia|].
      unfold dayNumber. cbn [year month day]. rewrite E.
      replace (daysBeforeYear (year t)) with (daysBeforeYear (year t - 1 + 1))
        by (f_equal; lia).
      rewrite daysBeforeYear_succ, <- daysBeforeMonth_year.
      unfold daysInMonth at 1. simpl (12 =? 2). cbv iota.
      replace (daysBeforeMonth (year t) 1) with 0 by reflexivity.
      simpl. lia.
    + pose proof (daysInMonth_bounds (year t) (month t - 1)).
      split; [repeat split; simpl; lia|].
      unfold dayNumber. cbn [year month day].
      replace (daysBeforeMonth (year t) (month t))
        with (daysBeforeMonth (year t) (month t - 1 + 1)) by (f_equal; lia).
      rewrite daysBeforeMonth_next by lia. lia.
Qed.

Lemma str_ge_dates (a b : CivilDate) :
  validDate a -> validDate b ->
  str_ge (toLocaleDateString_enCA a) (toLocaleDateString_enCA b) =
    (dayNumber b <=? dayNumber a).
Proof.
  intros Ha Hb. unfold str_ge.
  rewrite str_compare_dates, <- dayNumber_compare by assumption.
  destruct (Z.compare_spec (dayNumber a) (dayNumber b));
    destruct (Z.leb_spec (dayNumber b) (dayNumber a)); auto; lia.
Qed.

Lemma filter_historyOf (f : TrackerData -> bool) (g : CivilDate * Z -> bool)
    (rs : list (CivilDate * Z)) :
  Forall (fun r => f (recordOf r) = g r) rs ->
  List.filter f (historyOf rs) = historyOf (List.filter g rs).
Proof.
  induction 1 as [|r rs Hr _ IH]; simpl; [reflexivity|].
  rewrite Hr, IH. now destruct (g r).
Qed.

(** C5, as the code has it. For today in the years 1001 to 9999 and a
    history of calendar dates whose counts are integers with sizes that sum
    to at most 2^53, [last7DaysTotal] is the sum of the counts of the
    records dated on or after the day six days before today; a record dated
    after today is counted as well. On a history with no record dated after
    today this is the sum over the window from six days before today
    through today. With today = 2024-06-10 and the records (06-10, 2),
    (06-04, 3), (06-03, 5) it is 5. *)
Theorem last7DaysTotal_spec :
  (forall (today : CivilDate) (rs : list (CivilDate * Z)),
     validDate today -> 1000 < year today ->
     Forall (fun r => validDate r.1) rs ->
     sumAbs (historyOf rs) <= 2 ^ 53 ->
     last7DaysTotal (summaryStats today (historyOf rs)) =
       Finite (sumSince today 6 rs) /\
     (Forall (fun r => dayNumber r.1 <= dayNumber today) rs ->
      last7DaysTotal (summaryStats today (historyOf rs)) =
        Finite (sumWindow today 6 rs))) /\
  last7DaysTotal
    (summaryStats (mkDate 2024 6 10)
       (historyOf [(mkDate 2024 6 10, 2); (mkDate 2024 6 4, 3); (mkDate 2024 6 3, 5)]))
    = Finite 5.
Proof.
  split; [|vm_compute; reflexivity].
  intros today rs Ht Hy Hrs Hb.
  destruct (sevenDaysAgo_spec today Ht Hy) as [Hv Hn].
  assert (Hsince : last7DaysTotal (summaryStats today (historyOf rs)) =
                   Finite (sumSince today 6 rs)).
  { rewrite last7_is_fold.
    pose proof (sumAbs_filter
      (fun entry => str_ge (date entry)
         (toLocaleDateString_enCA (setDate today (getDate today - 6))))
      (historyOf rs)) as Hf.
    rewrite fold_sum by (simpl; lia). rewrite Z.add_0_l.
    unfold sumSince. do 2 f_equal.
    apply filter_historyOf. eapply Forall_impl; [exact Hrs|].
    intros r' Hr'. simpl. rewrite str_ge_dates by assumption. now rewrite Hn. }
  split; [exact Hsince|].
  intros Hpast. rewrite Hsince. unfold sumSince, sumWindow. do 3 f_equal.
  apply filter_ext_in. intros r' Hin.
  rewrite Forall_forall in Hpast. apply list_elem_of_In, Hpast in Hin.
  destruct (Z.leb_spec (dayNumber r'.1) (dayNumber today)); [|lia].
  now rewrite andb_true_r.
Qed.

Lemma last7DaysTotal_spec_witness :
  last7DaysTotal (summaryStats (mkDate 2024 3 2)
    (historyOf [(mkDate 2024 3 2, 1); (mkDate 2024 2 25, 2); (mkDate 2024 2 24, 4)])) =
  Finite (sumWindow (mkDate 2024 3 2) 6
    [(mkDate 2024 3 2, 1); (mkDate 2024 2 25, 2); (mkDate 2024 2 24, 4)]).
Proof.
  assert (V1 : validDate (mkDate 2024 3 2)) by (vm_compute; intuition discriminate).
  assert (V2 : validDate (mkDate 2024 2 25)) by (vm_compute; intuition discriminate).
  assert (V3 : validDate (mkDate 2024 2 24)) by (vm_compute; intuition discriminate).
  apply (proj1 last7DaysTotal_spec (mkDate 2024 3 2)
           [(mkDate 2024 3 2, 1); (mkDate 2024 2 25, 2); (mkDate 2024 2 24, 4)]).
  - exact V1.
  - simpl. lia.
  - repeat (apply Forall_cons; split; [assumption|]). apply Forall_nil; exact I.
  - simpl. lia.
  - repeat (apply Forall_cons; split; [vm_compute; discriminate|]).
    apply Forall_nil; exact I.
Defined.

(** C5, as the claim states it, fails on a record dated after today: the
    record of 2024-06-11 is outside the window that ends on 2024-06-10, and
    the code counts it. *)
Lemma last7DaysTotal_counts_later_dates :
  last7DaysTotal (summaryStats (mkDate 2024 6 10) (historyOf [(mkDate 2024 6 11, 4)]))
  <> Finite (sumWindow (mkDate 2024 6 10) 6 [(mkDate 2024 6 11, 4)]).
Proof. vm_compute. intros E. discriminate E. Qed.

(** ** Reading back what [JSON.stringify] writes *)

Lemma hexval_hexdigit (n : N) : (n < 16)%N -> hexval (hexdigit n) = Some n.
Proof.
  intros Hn. unfold hexdigit, hexval.
  destruct (N.ltb_spec n 10).
  - replace ((48 <=? 48 + n) && (48 + n <=? 57))%N with true.
    + f_equal. lia.
    + symmetry. apply andb_true_iff. split; apply N.leb_le; lia.
  - replace ((48 <=? 87 + n) && (87 + n <=? 57))%N with false.
    + replace ((97 <=? 87 + n) && (87 + n <=? 102))%N with true.
      * f_equal. lia.
      * symmetry. apply andb_true_iff. split; apply N.leb_le; lia.
    + symmetry. apply andb_false_iff. right. apply N.leb_gt. lia.
Qed.

Lemma string_chars_unicode (c : N) (t : jsstring) :
  (c < 65536)%N ->
  string_chars (unicode_escape c ++ t) = prepend c (string_chars t).
Proof.
  intros Hc. unfold unicode_escape. cbn [app string_chars N.eqb Pos.eqb].
  unfold hex4.
  rewrite !hexval_hexdigit by (try apply N.mod_upper_bound; lia).
  cbn [mbind option_bind].
  replace (4096 * (c / 4096 mod 16) + 256 * (c / 256 mod 16) + 16 * (c / 16 mod 16)
           + c mod 16)%N with c; [reflexivity|].
  lia.
Qed.

Lemma string_chars_raw (c : N) (t : jsstring) :
  c <> QUOTE -> c <> BACKSLASH -> (32 <= c)%N ->
  string_chars (c :: t) = prepend c (string_chars t).
Proof.
  intros H1 H2 H3. cbn [string_chars].
  destruct (N.eqb_spec c 34); [contradiction|].
  destruct (N.eqb_spec c 92); [contradiction|].
  destruct (N.ltb_spec c 32); [lia|]. reflexivity.
Qed.

Lemma string_chars_quote_unit (c : N) (t : jsstring) :
  isHighSurrogate c = false -> isLowSurrogate c = false ->
  string_chars (quote_unit c ++ t) = prepend c (string_chars t).
Proof.
  intros _ _. unfold quote_unit.
  destruct (N.eqb_spec c 8) as [->|]; [reflexivity|].
  destruct (N.eqb_spec c 9) as [->|]; [reflexivity|].
  destruct (N.eqb_spec c 10) as [->|]; [reflexivity|].
  destruct (N.eqb_spec c 12) as [->|]; [reflexivity|].
  destruct (N.eqb_spec c 13) as [->|]; [reflexivity|].
  destruct (N.eqb_spec c 34) as [->|]; [reflexivity|].
  destruct (N.eqb_spec c 92) as [->|]; [reflexivity|].
  destruct (N.ltb_spec c 32).
  - apply string_chars_unicode. lia.
  - now apply string_chars_raw.
Qed.

Lemma surrogate_raw (c : N) (t : jsstring) :
  (55296 <= c)%N -> string_chars (c :: t) = prepend c (string_chars t).
Proof. intros H. apply string_chars_raw; lia. Qed.

Lemma isHighSurrogate_range (c : N) :
  isHighSurrogate c = true -> (55296 <= c <= 56319)%N.
Proof.
  unfold isHighSurrogate. intros [H1%N.leb_le H2%N.leb_le]%andb_true_iff. lia.
Qed.

Lemma isLowSurrogate_range (c : N) :
  isLowSurrogate c = true -> (56320 <= c <= 57343)%N.
Proof.
  unfold isLowSurrogate. intros [H1%N.leb_le H2%N.leb_le]%andb_true_iff. lia.
Qed.

(** Reading back the characters of a quoted string. *)
Lemma string_chars_quote_chars (s rest : jsstring) :
  string_chars (quote_chars s ++ QUOTE :: rest) = Some (s, rest).
Proof.
  remember (length s) as n eqn:Hn.
  revert s Hn. induction n as [n IH] using lt_wf_ind. intros s Hn.
  destruct s as [|c r]; [reflexivity|].
  cbn [quote_chars].
  destruct (isHighSurrogate c) eqn:Hh.
  - apply isHighSurrogate_range in Hh.
    destruct r as [|d r'].
    + rewrite string_chars_unicode by lia. reflexivity.
    + destruct (isLowSurrogate d) eqn:Hl.
      * apply isLowSurrogate_range in Hl.
        cbn [app]. rewrite !surrogate_raw by lia.
        rewrite (IH (length r')) by (simpl in Hn; lia || reflexivity). reflexivity.
      * rewrite <- app_assoc, string_chars_unicode by lia.
        rewrite (IH (length (d :: r'))) by (simpl in *; lia || reflexivity). reflexivity.
  - destruct (isLowSurrogate c) eqn:Hl.
    + apply isLowSurrogate_range in Hl.
      rewrite <- app_assoc, string_chars_unicode by lia.
      rewrite (IH (length r)) by (simpl in *; lia || reflexivity). reflexivity.
    + rewrite <- app_assoc, string_chars_quote_unit by assumption.
      rewrite (IH (length r)) by (simpl in *; lia || reflexivity). reflexivity.
Qed.

Lemma scan_digits_units (u : uint) (rest : jsstring) :
  no_digit_ahead rest -> scan_digits (uint_units u ++ rest) = (u, rest).
Proof.
  intros Hrest.
  induction u; cbn [uint_units app scan_digits]; try (rewrite IHu; reflexivity).
  destruct rest as [|c r]; [reflexivity|].
  simpl in Hrest. cbn [scan_digits]. now rewrite Hrest.
Qed.

Lemma to_uint_normal (p : positive) : unorm (Pos.to_uint p) = Pos.to_uint p.
Proof.
  pose proof (DecimalPos.Unsigned.to_of (Pos.to_uint p)) as H.
  rewrite DecimalPos.Unsigned.of_to in H. symmetry. exact H.
Qed.

Lemma to_uint_head (p : positive) :
  exists c r, uint_units (Pos.to_uint p) = c :: r /\ c <> 48%N /\
              digit_of c <> None /\ c <> MINUS.
Proof.
  pose proof (to_uint_normal p) as Hn.
  pose proof (DecimalPos.Unsigned.to_uint_nonnil p) as Hnil.
  destruct (Pos.to_uint p) as [|u|u|u|u|u|u|u|u|u|u] eqn:E;
    try (eexists _, _; split; [reflexivity|]; repeat split; discriminate).
  - congruence.
  - exfalso. destruct (uint_eq_dec u Nil) as [->|Hu].
    + now apply (DecimalPos.Unsigned.to_uint_nonzero p).
    + pose proof (nb_digits_unorm u Hu) as Hlen.
      change (unorm (D0 u)) with (unorm u) in Hn.
      rewrite Hn in Hlen. simpl in Hlen. lia.
Qed.

Lemma scan_int_units (p : positive) (rest : jsstring) :
  no_digit_ahead rest ->
  scan_int (uint_units (Pos.to_uint p) ++ rest) = Some (Pos.to_uint p, rest).
Proof.
  intros Hrest. destruct (to_uint_head p) as (c & r & E & Hc & _).
  assert (Hs : scan_int (uint_units (Pos.to_uint p) ++ rest) =
               match scan_digits (uint_units (Pos.to_uint p) ++ rest) with
               | (Nil, _) => None
               | (u, rest') => Some (u, rest')
               end).
  { rewrite E. cbn [app]. unfold scan_int.
    now destruct (N.eqb_spec c 48). }
  rewrite Hs, scan_digits_units by assumption.
  pose proof (DecimalPos.Unsigned.to_uint_nonnil p).
  now destruct (Pos.to_uint p).
Qed.

Lemma number_ends_no_digit (rest : jsstring) : number_ends rest -> no_digit_ahead rest.
Proof. destruct rest; simpl; tauto. Qed.

Lemma scan_frac_none (rest : jsstring) :
  number_ends rest -> scan_frac rest = Some (Nil, rest).
Proof.
  destruct rest as [|c r]; [reflexivity|]. intros (_ & H & _). simpl.
  now destruct (N.eqb_spec c 46).
Qed.

Lemma scan_exp_none (rest : jsstring) :
  number_ends rest -> scan_exp rest = Some (0, rest).
Proof.
  destruct rest as [|c r]; [reflexivity|]. intros (_ & _ & H1 & H2). simpl.
  destruct (N.eqb_spec c 101); [contradiction|].
  now destruct (N.eqb_spec c 69).
Qed.

Lemma mkNumber_integer (neg : bool) (u : uint) :
  mkNumber neg u Nil 0 = NInt (if neg then - Z.of_uint u else Z.of_uint u).
Proof.
  unfold mkNumber. rewrite DecimalFacts.app_nil_r. simpl.
  f_equal. lia.
Qed.

Lemma parse_unsigned_units (neg : bool) (p : positive) (rest : jsstring) :
  number_ends rest ->
  parse_unsigned neg (uint_units (Pos.to_uint p) ++ rest) =
    Some (NInt (if neg then Z.neg p else Z.pos p), rest).
Proof.
  intros Hrest. pose proof (number_ends_no_digit rest Hrest) as Hd.
  unfold parse_unsigned.
  rewrite scan_int_units by assumption. cbn [mbind option_bind].
  rewrite scan_frac_none by assumption. cbn [mbind option_bind].
  rewrite scan_exp_none by assumption. cbn [mbind option_bind].
  rewrite mkNumber_integer. do 2 f_equal.
  pose proof (DecimalZ.of_to (Z.pos p)) as Hp. cbn [Z.to_int Z.of_int] in Hp.
  rewrite Hp. now destruct neg.
Qed.

(** Reading back the text of an integer. *)
Lemma parse_number_toString (z : Z) (rest : jsstring) :
  number_ends rest ->
  parse_number (Number_toString z ++ rest) = Some (NInt z, rest).
Proof.
  intros Hrest. unfold Number_toString.
  destruct z as [|p|p]; cbn [Z.to_int].
  - change (uint_units zero ++ rest) with (48%N :: rest).
    change (parse_number (48%N :: rest)) with (parse_unsigned false (48%N :: rest)).
    unfold parse_unsigned.
    change (scan_int (48%N :: rest)) with (Some (D0 Nil, rest)).
    cbn [mbind option_bind].
    rewrite scan_frac_none by assumption. cbn [mbind option_bind].
    rewrite scan_exp_none by assumption. reflexivity.
  - destruct (to_uint_head p) as (c & r & E & _ & _ & Hc).
    assert (Hs : parse_number (uint_units (Pos.to_uint p) ++ rest) =
                 parse_unsigned false (uint_units (Pos.to_uint p) ++ rest)).
    { rewrite E. cbn [app]. unfold parse_number. now destruct (N.eqb_spec c 45). }
    rewrite Hs. now apply parse_unsigned_units.
  - cbn [app]. unfold parse_number. rewrite N.eqb_refl.
    now apply parse_unsigned_units.
Qed.

Lemma parse_value_string (n : nat) (r : jsstring) :
  parse_value (S n) (QUOTE :: r) =
    match string_chars r with
    | Some (str, r') => Some (JStr str, r')
    | None => None
    end.
Proof.
  cbn [parse_value]. unfold value_step. cbn [skip_ws is_ws N.eqb Pos.eqb orb].
  now destruct (string_chars r) as [[? ?]|].
Qed.

Lemma digit_of_range (c : N) : digit_of c <> None -> (48 <= c <= 57)%N.
Proof.
  unfold digit_of.
  destruct (N.eqb_spec c 48); [lia|]. destruct (N.eqb_spec c 49); [lia|].
  destruct (N.eqb_spec c 50); [lia|]. destruct (N.eqb_spec c 51); [lia|].
  destruct (N.eqb_spec c 52); [lia|]. destruct (N.eqb_spec c 53); [lia|].
  destruct (N.eqb_spec c 54); [lia|]. destruct (N.eqb_spec c 55); [lia|].
  destruct (N.eqb_spec c 56); [lia|]. destruct (N.eqb_spec c 57); [lia|].
  congruence.
Qed.

Lemma number_start_not_special (c : N) :
  digit_of c <> None \/ c = MINUS ->
  is_ws c = false /\ c <> 110%N /\ c <> 116%N /\ c <> 102%N /\ c <> QUOTE /\
  c <> LBRACKET /\ c <> LBRACE.
Proof.
  intros H.
  assert (Hc : (45 <= c <= 57)%N).
  { destruct H as [H%digit_of_range|H]; lia. }
  split; [|lia]. unfold is_ws.
  destruct (N.eqb_spec c 32); [lia|]. destruct (N.eqb_spec c 9); [lia|].
  destruct (N.eqb_spec c 10); [lia|]. destruct (N.eqb_spec c 13); [lia|].
  reflexivity.
Qed.

Lemma parse_value_number (n : nat) (c : N) (r : jsstring) :
  digit_of c <> None \/ c = MINUS ->
  parse_value (S n) (c :: r) =
    match parse_number (c :: r) with
    | Some (num, r') => Some (JNum num, r')
    | None => None
    end.
Proof.
  intros H. apply number_start_not_special in H as (W & H1 & H2 & H3 & H4 & H5 & H6).
  cbn [parse_value]. unfold value_step. cbn [skip_ws]. rewrite W.
  destruct (N.eqb_spec c 110); [contradiction|].
  destruct (N.eqb_spec c 116); [contradiction|].
  destruct (N.eqb_spec c 102); [contradiction|].
  destruct (N.eqb_spec c 34); [contradiction|].
  destruct (N.eqb_spec c 91); [contradiction|].
  destruct (N.eqb_spec c 123); [contradiction|].
  now destruct (parse_number (c :: r)) as [[? ?]|].
Qed.

Lemma Number_toString_head (z : Z) :
  exists c r, Number_toString z = c :: r /\ (digit_of c <> None \/ c = MINUS).
Proof.
  unfold Number_toString. destruct z as [|p|p]; cbn [Z.to_int].
  - exists 48%N, []. split; [reflexivity|]. left. discriminate.
  - destruct (to_uint_head p) as (c & r & E & _ & Hc & _).
    exists c, r. split; [exact E|]. now left.
  - eexists _, _. split; [reflexivity|]. now right.
Qed.

Lemma parse_value_count (n : nat) (z : Z) (rest : jsstring) :
  number_ends rest ->
  parse_value (S n) (Number_toString z ++ rest) = Some (JNum (NInt z), rest).
Proof.
  intros Hrest. destruct (Number_toString_head z) as (c & r & E & Hc).
  assert (Hs : parse_value (S n) (Number_toString z ++ rest) =
               match parse_number (Number_toString z ++ rest) with
               | Some (num, r') => Some (JNum num, r')
               | None => None
               end).
  { rewrite E. now apply parse_value_number. }
  rewrite Hs, parse_number_toString by assumption. reflexivity.
Qed.

Lemma parse_members_key (n : nat) (r : jsstring) (acc : gmap jsstring json) :
  parse_members (S n) (QUOTE :: r) acc =
    match string_chars r with
    | Some (k, r1) =>
        match skip_ws r1 with
        | c1 :: r2 =>
            if (c1 =? 58)%N then
              match parse_value n r2 with
              | Some (v, r3) =>
                  match skip_ws r3 with
                  | c3 :: r4 =>
                      if (c3 =? 44)%N then parse_members n r4 (<[k:=v]> acc)
                      else if (c3 =? 125)%N then Some (<[k:=v]> acc, r4)
                      else None
                  | [] => None
                  end
              | None => None
              end
            else None
        | [] => None
        end
    | None => None
    end.
Proof.
  cbn [parse_members]. unfold members_step.
  cbn [skip_ws is_ws N.eqb Pos.eqb orb].
  destruct (string_chars r) as [[k r1]|]; [|reflexivity].
  cbn [mbind option_bind]. destruct (skip_ws r1) as [|c1 r2]; [reflexivity|].
  destruct (c1 =? 58)%N; [|reflexivity].
  now destruct (parse_value n r2) as [[v r3]|].
Qed.

Lemma stringify_entry_text (e : TrackerData) (rest : jsstring) :
  stringify_entry e ++ rest =
    LBRACE :: QUOTE :: quote_chars (units "date") ++ QUOTE :: COLON :: QUOTE ::
    quote_chars (date e) ++ QUOTE :: COMMA :: QUOTE :: quote_chars (units "count") ++
    QUOTE :: COLON :: Number_toString (count e) ++ RBRACE :: rest.
Proof.
  unfold stringify_entry, quoteJSONString.
  repeat (cbn [app]; rewrite <- ?app_assoc). reflexivity.
Qed.

(** Reading back one record. *)
Lemma parse_value_entry (n : nat) (e : TrackerData) (rest : jsstring) :
  parse_value (S (S (S (S n)))) (stringify_entry e ++ rest) = Some (entryValue e, rest).
Proof.
  rewrite stringify_entry_text.
  change (parse_value (S (S (S (S n)))) (LBRACE :: QUOTE :: ?t))
    with (match parse_members (S (S (S n))) (QUOTE :: t) ∅ with
          | Some (m, r'') => Some (JObj m, r'')
          | None => None
          end).
  rewrite parse_members_key.
  rewrite string_chars_quote_chars.
  cbn [skip_ws is_ws N.eqb Pos.eqb orb].
  rewrite parse_value_string, string_chars_quote_chars.
  cbn [skip_ws is_ws N.eqb Pos.eqb orb].
  rewrite parse_members_key.
  rewrite string_chars_quote_chars.
  cbn [skip_ws is_ws N.eqb Pos.eqb orb].
  rewrite parse_value_count by (simpl; repeat split; discriminate).
  reflexivity.
Qed.

Lemma stringify_entry_head (e : TrackerData) (rest : jsstring) :
  exists t, stringify_entry e ++ rest = LBRACE :: t.
Proof. rewrite stringify_entry_text. eauto. Qed.

Lemma parse_value_more_fuel (n : nat) (e : TrackerData) (rest : jsstring) :
  (4 <= n)%nat -> parse_value n (stringify_entry e ++ rest) = Some (entryValue e, rest).
Proof.
  intros Hn. replace n with (S (S (S (S (n - 4))))) by lia. apply parse_value_entry.
Qed.

(** Reading back the records of a history that has one. *)
Lemma parse_elements_entries (h : list TrackerData) (n : nat) (rest : jsstring) :
  h <> [] -> (length h + 4 <= n)%nat ->
  parse_elements n (stringify_entries h ++ RBRACKET :: rest) = Some (map entryValue h, rest).
Proof.
  revert n. induction h as [|e h IH]; intros n Hne Hn; [congruence|].
  destruct n as [|n]; [simpl in Hn; lia|]. simpl in Hn.
  destruct h as [|e' h'].
  - cbn [stringify_entries parse_elements]. unfold elements_step.
    rewrite parse_value_more_fuel by lia. cbn [mbind option_bind].
    reflexivity.
  - change (stringify_entries (e :: e' :: h'))
      with (stringify_entry e ++ COMMA :: stringify_entries (e' :: h')).
    rewrite <- app_assoc. cbn [app parse_elements]. unfold elements_step.
    rewrite parse_value_more_fuel by lia. cbn [mbind option_bind].
    cbn [skip_ws is_ws N.eqb Pos.eqb orb].
    rewrite IH by (simpl in *; (lia || congruence)). reflexivity.
Qed.

Lemma stringify_entry_length (e : TrackerData) :
  (3 <= length (stringify_entry e))%nat.
Proof.
  rewrite <- (app_nil_r (stringify_entry e)), stringify_entry_text.
  cbn [length]. rewrite length_app. cbn [length]. lia.
Qed.

Lemma stringify_entries_length (h : list TrackerData) :
  (3 * length h <= length (stringify_entries h))%nat.
Proof.
  induction h as [|e h IH]; [simpl; lia|].
  pose proof (stringify_entry_length e) as He.
  destruct h as [|e' h']; [simpl; lia|].
  change (stringify_entries (e :: e' :: h'))
    with (stringify_entry e ++ COMMA :: stringify_entries (e' :: h')).
  rewrite length_app. cbn [length] in *. lia.
Qed.

(** [JSON.parse] reads back what [JSON.stringify] writes. *)
Lemma JSON_parse_stringify (h : list TrackerData) :
  JSON_parse (JSON_stringify h) = Normal (historyValue h).
Proof.
  unfold JSON_parse, JSON_stringify.
  destruct h as [|e h].
  - reflexivity.
  - set (n := length (LBRACKET :: stringify_entries (e :: h) ++ [RBRACKET])).
    assert (Hn : (length (e :: h) + 4 <= n)%nat).
    { subst n. cbn [length]. rewrite length_app.
      pose proof (stringify_entries_length (e :: h)).
      cbn [length] in *. lia. }
    assert (Hs : exists t, stringify_entries (e :: h) ++ [RBRACKET] = LBRACE :: t).
    { destruct h as [|e' h'].
      - apply stringify_entry_head.
      - change (stringify_entries (e :: e' :: h'))
          with (stringify_entry e ++ COMMA :: stringify_entries (e' :: h')).
        rewrite <- app_assoc. apply stringify_entry_head. }
    destruct Hs as (t & Ht).
    assert (Hp : parse_value (S n) (LBRACKET :: stringify_entries (e :: h) ++ [RBRACKET]) =
                 match parse_elements n (stringify_entries (e :: h) ++ [RBRACKET]) with
                 | Some (vs, r'') => Some (JArr vs, r'')
                 | None => None
                 end).
    { rewrite Ht. cbn [parse_value]. unfold value_step.
      cbn [skip_ws is_ws N.eqb Pos.eqb orb].
      now destruct (parse_elements n (LBRACE :: t)) as [[? ?]|]. }
    rewrite Hp, parse_elements_entries by (congruence || exact Hn).
    reflexivity.
Qed.

Lemma asEntry_entryValue (e : TrackerData) : asEntry (entryValue e) = Some e.
Proof.
  unfold asEntry, entryValue.
  rewrite lookup_insert_ne by discriminate.
  rewrite !lookup_insert_eq. now destruct e.
Qed.

Lemma asHistory_historyValue (h : list TrackerData) :
  asHistory (historyValue h) = Some h.
Proof.
  unfold asHistory, historyValue. apply mapM_Some.
  induction h as [|e h IH]; constructor; [apply asEntry_entryValue | exact IH].
Qed.

(** ** The depth of the descent *)

Lemma skip_ws_length (s : jsstring) : (length (skip_ws s) <= length s)%nat.
Proof.
  induction s as [|c s IH]; simpl; [lia|]. destruct (is_ws c); simpl; lia.
Qed.

Lemma expect_length (name s r : jsstring) :
  expect name s = Some r -> (length r <= length s)%nat.
Proof.
  revert s. induction name as [|c name IH]; intros s; simpl.
  - intros [= ->]. lia.
  - destruct s as [|c' s]; [discriminate|]. destruct (c =? c')%N; [|discriminate].
    intros H%IH. simpl. lia.
Qed.

Lemma prepend_Some (c : N) (res : option (jsstring * jsstring)) (str r : jsstring) :
  prepend c res = Some (str, r) -> exists str', res = Some (str', r) /\ str = c :: str'.
Proof.
  destruct res as [[str' r']|]; simpl; [|discriminate].
  intros [= <- <-]. eauto.
Qed.

Lemma string_chars_length (s str r : jsstring) :
  string_chars s = Some (str, r) -> (length r < length s)%nat.
Proof.
  remember (length s) as n eqn:Hn. revert s str r Hn.
  induction n as [n IH] using lt_wf_ind. intros s str r Hn.
  destruct s as [|c s]; [discriminate|]. cbn [string_chars]. simpl in Hn.
  destruct (c =? 34)%N; [intros [= <- <-]; lia|].
  destruct (c =? 92)%N.
  - destruct s as [|e s]; [discriminate|].
    destruct (e =? 117)%N.
    + destruct s as [|x1 [|x2 [|x3 [|x4 s]]]]; try discriminate.
      destruct (hex4 x1 x2 x3 x4); [|discriminate].
      intros (str' & H & _)%prepend_Some.
      apply (IH (length s)) in H; simpl in *; lia.
    + destruct (unescape e); [|discriminate].
      intros (str' & H & _)%prepend_Some.
      apply (IH (length s)) in H; simpl in *; lia.
  - destruct (c <? 32)%N; [discriminate|].
    intros (str' & H & _)%prepend_Some.
    apply (IH (length s)) in H; simpl in *; lia.
Qed.

Lemma scan_digits_length (s r : jsstring) (u : uint) :
  scan_digits s = (u, r) ->
  (length r <= length s)%nat /\ (u <> Nil -> (length r < length s)%nat).
Proof.
  revert u r. induction s as [|c s IH]; intros u r; cbn [scan_digits].
  - intros [= <- <-]. split; [lia|congruence].
  - destruct (digit_of c) as [dk|]; [|intros [= <- <-]; split; [lia|congruence]].
    destruct (scan_digits s) as [u' r'] eqn:E. intros [= <- <-].
    destruct (IH u' r' eq_refl) as [H _]. simpl. split; [lia|intros _; lia].
Qed.

Lemma scan_nonempty_length (s r : jsstring) (u : uint) :
  match scan_digits s with
  | (Nil, _) => None
  | (u, rest) => Some (u, rest)
  end = Some (u, r) -> (length r < length s)%nat.
Proof.
  destruct (scan_digits s) as [u' r'] eqn:E.
  apply scan_digits_length in E as [_ E].
  destruct u'; [discriminate|..]; intros [= <- <-]; apply E; discriminate.
Qed.

Lemma scan_int_length (s r : jsstring) (u : uint) :
  scan_int s = Some (u, r) -> (length r < length s)%nat.
Proof.
  unfold scan_int. destruct s as [|c s]; [discriminate|].
  destruct (c =? 48)%N; [intros [= <- <-]; simpl; lia|].
  apply scan_nonempty_length.
Qed.

Lemma scan_frac_length (s r : jsstring) (u : uint) :
  scan_frac s = Some (u, r) -> (length r <= length s)%nat.
Proof.
  unfold scan_frac. destruct s as [|c s]; [intros [= <- <-]; lia|].
  destruct (c =? 46)%N; [|intros [= <- <-]; lia].
  intros H%scan_nonempty_length. simpl. lia.
Qed.

Lemma scan_exp_digits_length (neg : bool) (s r : jsstring) (e : Z) :
  scan_exp_digits neg s = Some (e, r) -> (length r < length s)%nat.
Proof.
  unfold scan_exp_digits. destruct (scan_digits s) as [u' r'] eqn:E.
  apply scan_digits_length in E as [_ E].
  destruct u'; [discriminate|..]; intros [= <- <-]; apply E; discriminate.
Qed.

Lemma scan_exp_length (s r : jsstring) (e : Z) :
  scan_exp s = Some (e, r) -> (length r <= length s)%nat.
Proof.
  unfold scan_exp. destruct s as [|c s]; [intros [= <- <-]; lia|].
  destruct (_ || _); [|intros [= <- <-]; lia].
  destruct s as [|sg s]; [discriminate|].
  destruct (sg =? 45)%N; [intros H%scan_exp_digits_length; simpl; lia|].
  destruct (sg =? 43)%N; intros H%scan_exp_digits_length; simpl in *; lia.
Qed.

Lemma parse_unsigned_length (neg : bool) (s r : jsstring) (x : number) :
  parse_unsigned neg s = Some (x, r) -> (length r < length s)%nat.
Proof.
  unfold parse_unsigned.
  destruct (scan_int s) as [[ip s2]|] eqn:E1; [|discriminate]. cbn [mbind option_bind].
  destruct (scan_frac s2) as [[fp s3]|] eqn:E2; [|discriminate]. cbn [mbind option_bind].
  destruct (scan_exp s3) as [[e s4]|] eqn:E3; [|discriminate]. cbn [mbind option_bind].
  intros [= _ <-].
  apply scan_int_length in E1. apply scan_frac_length in E2.
  apply scan_exp_length in E3. lia.
Qed.

Lemma parse_number_length (s r : jsstring) (x : number) :
  parse_number s = Some (x, r) -> (length r < length s)%nat.
Proof.
  unfold parse_number. destruct s as [|c s]; [discriminate|].
  destruct (c =? 45)%N; intros H%parse_unsigned_length; simpl in *; lia.
Qed.

Section Steps.
Context (value value' : jsstring -> option (json * jsstring)).
Context (elements elements' : jsstring -> option (list json * jsstring)).
Context (members members' :
           jsstring -> gmap jsstring json -> option (gmap jsstring json * jsstring)).

(** A step that succeeds consumes text, and succeeds in the same way with
    other recursive calls that agree on the calls it made. *)
Lemma value_step_transfer (s r : jsstring) (v : json) :
  value_step elements members s = Some (v, r) ->
  (forall s' vs, elements s' = Some (vs, r) ->
     (length r < length s')%nat /\
     ((length s' < length s)%nat -> elements' s' = Some (vs, r))) ->
  (forall s' acc m, members s' acc = Some (m, r) ->
     (length r < length s')%nat /\
     ((length s' < length s)%nat -> members' s' acc = Some (m, r))) ->
  (length r < length s)%nat /\ value_step elements' members' s = Some (v, r).
Proof.
  clear value value'. intros H He Hm. unfold value_step in *.
  pose proof (skip_ws_length s) as Hs.
  destruct (skip_ws s) as [|c t]; [discriminate|]. simpl in Hs.
  destruct (c =? 110)%N.
  { split; [|exact H]. destruct (expect _ t) as [r'|] eqn:E; [|discriminate].
    apply expect_length in E. injection H as _ <-. lia. }
  destruct (c =? 116)%N.
  { split; [|exact H]. destruct (expect _ t) as [r'|] eqn:E; [|discriminate].
    apply expect_length in E. injection H as _ <-. lia. }
  destruct (c =? 102)%N.
  { split; [|exact H]. destruct (expect _ t) as [r'|] eqn:E; [|discriminate].
    apply expect_length in E. injection H as _ <-. lia. }
  destruct (c =? 34)%N.
  { split; [|exact H]. destruct (string_chars t) as [[str r']|] eqn:E; [|discriminate].
    apply string_chars_length in E. injection H as _ <-. lia. }
  destruct (c =? 91)%N.
  { pose proof (skip_ws_length t) as Ht.
    destruct (skip_ws t) as [|c' t']; [discriminate|]. simpl in Ht.
    destruct (c' =? 93)%N; [split; [injection H as _ <-; lia | exact H]|].
    destruct (elements (c' :: t')) as [[vs r']|] eqn:E; [|discriminate].
    cbn [mbind option_bind] in H. injection H as <- <-.
    apply He in E as [E1 E2]. simpl in E1. split; [lia|]. rewrite E2 by (simpl; lia). reflexivity. }
  destruct (c =? 123)%N.
  { pose proof (skip_ws_length t) as Ht.
    destruct (skip_ws t) as [|c' t']; [discriminate|]. simpl in Ht.
    destruct (c' =? 125)%N; [split; [injection H as _ <-; lia | exact H]|].
    destruct (members (c' :: t') ∅) as [[m r']|] eqn:E; [|discriminate].
    cbn [mbind option_bind] in H. injection H as <- <-.
    apply Hm in E as [E1 E2]. simpl in E1. split; [lia|]. rewrite E2 by (simpl; lia). reflexivity. }
  split; [|exact H].
  destruct (parse_number (c :: t)) as [[x r']|] eqn:E; [|discriminate].
  apply parse_number_length in E. injection H as _ <-. simpl in E. lia.
Qed.

Lemma elements_step_transfer (s r : jsstring) (vs : list json) :
  elements_step value elements s = Some (vs, r) ->
  (forall v r', value s = Some (v, r') ->
     (length r' < length s)%nat /\
     ((length r < length r')%nat -> value' s = Some (v, r'))) ->
  (forall s' vs', elements s' = Some (vs', r) ->
     (length r < length s')%nat /\
     ((length s' < length s)%nat -> elements' s' = Some (vs', r))) ->
  (length r < length s)%nat /\ elements_step value' elements' s = Some (vs, r).
Proof.
  clear members members'. intros H Hv He. unfold elements_step in *.
  destruct (value s) as [[v r1]|] eqn:E; [|discriminate].
  destruct (Hv v r1 eq_refl) as [E1 E2]. cbn [mbind option_bind] in H.
  pose proof (skip_ws_length r1) as Hs.
  destruct (skip_ws r1) as [|c t] eqn:Et; [discriminate|]. simpl in Hs.
  destruct (c =? 44)%N eqn:Ec.
  - destruct (elements t) as [[vs' r']|] eqn:E'; [|discriminate].
    cbn [mbind option_bind] in H. injection H as <- <-.
    apply He in E' as [E1' E2']. split; [lia|].
    rewrite E2 by lia. cbn [mbind option_bind]. rewrite Et, Ec.
    rewrite E2' by lia. reflexivity.
  - destruct (c =? 93)%N eqn:Ec'; [|discriminate].
    injection H as <- <-. split; [lia|].
    rewrite E2 by lia. cbn [mbind option_bind]. rewrite Et, Ec, Ec'. reflexivity.
Qed.

Lemma members_step_transfer (s r : jsstring) (acc m : gmap jsstring json) :
  members_step value members s acc = Some (m, r) ->
  (forall s' v r', value s' = Some (v, r') ->
     (length r' < length s')%nat /\
     ((length s' < length s)%nat -> (length r < length r')%nat ->
      value' s' = Some (v, r'))) ->
  (forall s' acc' m', members s' acc' = Some (m', r) ->
     (length r < length s')%nat /\
     ((length s' < length s)%nat -> members' s' acc' = Some (m', r))) ->
  (length r < length s)%nat /\ members_step value' members' s acc = Some (m, r).
Proof.
  clear elements elements'. intros H Hv Hm. unfold members_step in *.
  pose proof (skip_ws_length s) as Hs.
  destruct (skip_ws s) as [|c t]; [discriminate|]. simpl in Hs.
  destruct (c =? 34)%N; [|discriminate].
  destruct (string_chars t) as [[k r1]|] eqn:Ek; [|discriminate].
  apply string_chars_length in Ek. cbn [mbind option_bind] in *.
  pose proof (skip_ws_length r1) as Hs1.
  destruct (skip_ws r1) as [|c1 r2]; [discriminate|]. simpl in Hs1.
  destruct (c1 =? 58)%N; [|discriminate].
  destruct (value r2) as [[v r3]|] eqn:E; [|discriminate].
  apply Hv in E as [E1 E2]. cbn [mbind option_bind] in *.
  pose proof (skip_ws_length r3) as Hs3.
  destruct (skip_ws r3) as [|c3 r4] eqn:E3; [discriminate|]. simpl in Hs3.
  destruct (c3 =? 44)%N eqn:Ec.
  - apply Hm in H as [H1 H2]. split; [lia|].
    rewrite E2 by lia. cbn [mbind option_bind]. rewrite E3, Ec.
    apply H2. lia.
  - destruct (c3 =? 125)%N eqn:Ec'; [|discriminate].
    injection H as <- <-. split; [lia|].
    rewrite E2 by lia. cbn [mbind option_bind]. rewrite E3, Ec, Ec'. reflexivity.
Qed.
End Steps.

(** What a parser returns from one depth it returns from every depth above
    the number of characters that it consumed. *)
Lemma parse_fuel (n : nat) :
  (forall s v r, parse_value n s = Some (v, r) ->
     (length r < length s)%nat /\
     forall m, (length s - length r < m)%nat -> parse_value m s = Some (v, r)) /\
  (forall s vs r, parse_elements n s = Some (vs, r) ->
     (length r < length s)%nat /\
     forall m, (length s - length r < m)%nat -> parse_elements m s = Some (vs, r)) /\
  (forall s acc mp r, parse_members n s acc = Some (mp, r) ->
     (length r < length s)%nat /\
     forall m, (length s - length r < m)%nat -> parse_members m s acc = Some (mp, r)).
Proof.
  induction n as [|n (IHv & IHe & IHm)]; [repeat split; discriminate|].
  split; [|split].
  - intros s v r H. cbn [parse_value] in H.
    assert (Hlen : (length r < length s)%nat).
    { eapply (value_step_transfer _ (parse_elements n) _ (parse_members n)); [exact H|..].
      - intros s' vs E. split; [now apply IHe in E|auto].
      - intros s' acc m E. split; [now apply IHm in E|auto]. }
    split; [exact Hlen|]. intros [|m] Hm; [lia|]. cbn [parse_value].
    eapply value_step_transfer; [exact H|..].
    + intros s' vs E. destruct (IHe _ _ _ E) as [E1 E2].
      split; [exact E1|]. intros Hs'. apply E2. lia.
    + intros s' acc mp E. destruct (IHm _ _ _ _ E) as [E1 E2].
      split; [exact E1|]. intros Hs'. apply E2. lia.
  - intros s vs r H. cbn [parse_elements] in H.
    assert (Hlen : (length r < length s)%nat).
    { eapply (elements_step_transfer _ (parse_value n) _ (parse_elements n)); [exact H|..].
      - intros v r' E. split; [now apply IHv in E|auto].
      - intros s' vs' E. split; [now apply IHe in E|auto]. }
    split; [exact Hlen|]. intros [|m] Hm; [lia|]. cbn [parse_elements].
    eapply elements_step_transfer; [exact H|..].
    + intros v r' E. destruct (IHv _ _ _ E) as [E1 E2].
      split; [exact E1|]. intros Hr. apply E2. lia.
    + intros s' vs' E. destruct (IHe _ _ _ E) as [E1 E2].
      split; [exact E1|]. intros Hs'. apply E2. lia.
  - intros s acc mp r H. cbn [parse_members] in H.
    assert (Hlen : (length r < length s)%nat).
    { eapply (members_step_transfer _ (parse_value n) _ (parse_members n)); [exact H|..].
      - intros s' v r' E. split; [now apply IHv in E|auto].
      - intros s' acc' m' E. split; [now apply IHm in E|auto]. }
    split; [exact Hlen|]. intros [|m] Hm; [lia|]. cbn [parse_members].
    eapply members_step_transfer; [exact H|..].
    + intros s' v r' E. destruct (IHv _ _ _ E) as [E1 E2].
      split; [exact E1|]. intros Hs' Hr. apply E2. lia.
    + intros s' acc' m' E. destruct (IHm _ _ _ _ E) as [E1 E2].
      split; [exact E1|]. intros Hs'. apply E2. lia.
Qed.

Lemma JSON_parse_complete (text : jsstring) (v : json) :
  JSON_parse text = Normal v <-> JSON_text_of text v.
Proof.
  unfold JSON_parse, JSON_text_of. split.
  - destruct (parse_value (S (length text)) text) as [[v' rest]|] eqn:E; [|discriminate].
    destruct (skip_ws rest) eqn:Er; [|discriminate].
    intros [= <-]. eauto.
  - intros (n & rest & H & Hr).
    apply parse_fuel in H as [_ H]. rewrite H by lia. now rewrite Hr.
Qed.

Lemma JSON_parse_throws (text : jsstring) :
  JSON_parse text = Throw SyntaxError <-> forall v, ~ JSON_text_of text v.
Proof.
  split.
  - intros H v Hv%JSON_parse_complete. congruence.
  - intros H. destruct (JSON_parse text) as [v|[]] eqn:E; [|reflexivity].
    apply JSON_parse_complete in E. now apply H in E.
Qed.

(** ** The claims about persistence *)

Lemma getItem_setItem (k v : jsstring) (st : gmap jsstring jsstring) :
  getItem k (setItem k v st) = Some v.
Proof. unfold getItem, setItem. apply lookup_insert_eq. Qed.

Lemma JSON_stringify_head (h : History) :
  exists t, JSON_stringify h = LBRACKET :: t.
Proof. unfold JSON_stringify. eauto. Qed.

(** Loading a store that holds the text of a history. *)
Lemma load_stringified (h : History) (st : gmap jsstring jsstring) (v0 : json) :
  getItem storageKey st = Some (JSON_stringify h) ->
  loadEffect true st v0 = Normal (historyValue h).
Proof.
  intros Hget. unfold loadEffect. cbn [negb]. rewrite Hget.
  destruct (JSON_stringify_head h) as (t & Ht).
  pose proof (JSON_parse_stringify h) as Hp. rewrite Ht in *.
  now rewrite Hp.
Qed.

(** C3, as the code has it. For a history with at least one record, saving
    it and then loading gives the value of that history, whatever the store
    held before. Saving the empty history writes nothing: the store stays as
    it was, and loading an empty store gives the empty history. *)
Theorem save_load_roundtrip (H : History) (st : gmap jsstring jsstring) (v0 : json) :
  (H <> [] ->
     loadEffect true (saveEffect true H st) v0 = Normal (historyValue H) /\
     asHistory (historyValue H) = Some H) /\
  saveEffect true [] st = st /\
  loadEffect true (saveEffect true [] ∅) v0 = Normal (historyValue []).
Proof.
  split; [|split; reflexivity].
  intros Hne. split; [|apply asHistory_historyValue].
  apply load_stringified. unfold saveEffect.
  destruct H as [|e H]; [congruence|]. cbn [negb orb length Nat.eqb].
  apply getItem_setItem.
Qed.

Lemma save_load_roundtrip_witness :
  loadEffect true
    (saveEffect true [{| count := 2; date := units "2024-06-10" |}] ∅) JNull =
    Normal (historyValue [{| count := 2; date := units "2024-06-10" |}]).
Proof.
  apply (proj1 (save_load_roundtrip
                  [{| count := 2; date := units "2024-06-10" |}] ∅ JNull)).
  discriminate.
Defined.

(** C3, as the claim states it, fails on the empty history: saving it over
    a store that holds a record leaves the record there, and loading gives
    the record, not the empty history. *)
Lemma save_skips_empty_history :
  loadEffect true
    (saveEffect true []
       (setItem storageKey
          (JSON_stringify [{| count := 2; date := units "2024-06-10" |}]) ∅))
    JNull
  = Normal (historyValue [{| count := 2; date := units "2024-06-10" |}]) /\
  loadEffect true
    (saveEffect true []
       (setItem storageKey
          (JSON_stringify [{| count := 2; date := units "2024-06-10" |}]) ∅))
    JNull
  <> Normal (historyValue []).
Proof.
  change (saveEffect true [] ?st) with st.
  rewrite (load_stringified [{| count := 2; date := units "2024-06-10" |}])
    by apply getItem_setItem.
  split; [reflexivity|]. intros E. discriminate E.
Qed.

(** C4. On the stored text 5, which is JSON but not the JSON of a history,
    the load effect does not fall back to the empty history: the parse
    succeeds, nothing is caught, and the state that is typed as a history
    becomes the number 5. *)
Lemma load_keeps_non_history_value :
  loadEffect true (setItem storageKey (units "5") ∅) JNull = Normal (JNum (NInt 5)) /\
  asHistory (JNum (NInt 5)) = None /\
  Normal (JNum (NInt 5)) <> Normal (historyValue []).
Proof.
  split; [vm_compute; reflexivity|]. split; [reflexivity|].
  intros E. discriminate E.
Qed.

(** A stored text that is not JSON: the parse throws, the handler sets the
    empty history. *)
Example load_malformed_text :
  JSON_parse (units "not json") = Throw SyntaxError /\
  loadEffect true (setItem storageKey (units "not json") ∅) JNull =
    Normal (historyValue []).
Proof. vm_compute. split; reflexivity. Qed.

(** ** The scenario of the first day *)

(** From the empty history on 2024-06-10: the effect creates today's record
    with count 0; after two increments today's count is 2 and so is the
    count of [bestDay]. *)
Example first_day_scenario :
  let now := mkDate 2024 6 10 in
  let today := getTodayDateString now in
  let h0 := ensureTodayEffect true today [] in
  let h2 := incrementCount today (incrementCount today h0) in
  h0 = [{| count := 0; date := units "2024-06-10" |}] /\
  todayCount h2 today = 2 /\
  bestCount (bestDay (summaryStats now h2)) = 2.
Proof. vm_compute. repeat split. Qed.

(** ** More about the updaters and what is rendered *)

Lemma todayCount_cons (e : TrackerData) (h : History) (d : jsstring) :
  todayCount (e :: h) d = if bool_decide (date e = d) then count e else todayCount h d.
Proof. unfold todayCount. simpl. now destruct (bool_decide (date e = d)). Qed.

Lemma todayCount_absent (h : History) (d : jsstring) :
  ~ hasEntry d h -> todayCount h d = 0.
Proof.
  induction h as [|e h IH]; intros Hno; [reflexivity|].
  rewrite todayCount_cons. destruct (bool_decide (date e = d)) eqn:E.
  - apply bool_decide_eq_true in E. exfalso. apply Hno. exists e. simpl. auto.
  - apply IH. intros (e' & He' & Hd). apply Hno. exists e'. simpl. auto.
Qed.

Lemma hasEntry_cons (e : TrackerData) (h : History) (d : jsstring) :
  hasEntry d (e :: h) <-> date e = d \/ hasEntry d h.
Proof.
  unfold hasEntry. split.
  - intros (e' & [<-|He'] & Hd); [now left|right; eauto].
  - intros [Hd|(e' & He' & Hd)]; [exists e|exists e']; simpl; auto.
Qed.

(** Reading a day's count after a map that keeps the dates. *)
Lemma todayCount_map (f : TrackerData -> TrackerData) (h : History) (d : jsstring) :
  (forall e, date (f e) = date e) ->
  todayCount (map f h) d =
    match find (fun entry => bool_decide (date entry = d)) h with
    | Some e => count (f e)
    | None => 0
    end.
Proof.
  intros Hf. induction h as [|e h IH]; [reflexivity|].
  cbn [map find]. rewrite todayCount_cons, Hf.
  now destruct (bool_decide (date e = d)).
Qed.

Lemma find_hasEntry (h : History) (d : jsstring) :
  hasEntry d h ->
  exists e, find (fun entry => bool_decide (date entry = d)) h = Some e /\ date e = d.
Proof.
  induction h as [|e h IH]; [intros (e' & [] & _)|].
  intros [Hd|Hh]%hasEntry_cons; simpl.
  - rewrite bool_decide_eq_true_2 by exact Hd. eauto.
  - destruct (bool_decide (date e = d)) eqn:E; [|auto].
    apply bool_decide_eq_true in E. eauto.
Qed.

Lemma todayCount_incrementCount (h : History) (d d' : jsstring) :
  todayCount (incrementCount d h) d' =
    if bool_decide (d' = d) then
      (if existsb (fun entry => bool_decide (date entry = d)) h
       then roundToDouble (todayCount h d + 1) else 0)
    else todayCount h d'.
Proof.
  unfold incrementCount. rewrite todayCount_map
    by (intros e; now destruct (bool_decide (date e = d))).
  destruct (bool_decide (d' = d)) eqn:E.
  - apply bool_decide_eq_true in E. subst d'.
    destruct (existsb _ h) eqn:Ex.
    + apply hasTodayEntry_spec, find_hasEntry in Ex as (e & Hf & Hd).
      unfold todayCount. rewrite Hf. now rewrite bool_decide_eq_true_2 by exact Hd.
    + destruct (find _ h) as [e|] eqn:Hf; [|reflexivity].
      apply find_some in Hf as [Hin Hd]. apply bool_decide_eq_true in Hd.
      assert (Hex : hasEntry d h) by (exists e; auto).
      apply hasTodayEntry_spec in Hex. congruence.
  - apply bool_decide_eq_false in E. unfold todayCount.
    destruct (find _ h) as [e|] eqn:Hf; [|reflexivity].
    apply find_some in Hf as [_ Hd]. apply bool_decide_eq_true in Hd.
    rewrite bool_decide_eq_false_2 by congruence. reflexivity.
Qed.

Lemma incrementCount_hasEntry (h : History) (d d' : jsstring) :
  hasEntry d' (incrementCount d h) <-> hasEntry d' h.
Proof.
  unfold hasEntry. split.
  - intros (e' & He' & Hd). unfold incrementCount in He'.
    apply in_map_iff in He' as (e & <- & He). exists e. split; [exact He|].
    now destruct (bool_decide (date e = d)).
  - intros (e & He & Hd).
    exists (if bool_decide (date e = d)
            then {| count := roundToDouble (count e + 1); date := date e |} else e).
    split; [|now destruct (bool_decide (date e = d))].
    unfold incrementCount. apply in_map_iff. eauto.
Qed.

(** X1. The count that is read for a date after [n] clicks on the button,
    while it stays an integer from -2^53 to 2^53. *)
Theorem todayCount_after_increments (h : History) (d : jsstring) (n : nat) :
  (hasEntry d h -> - 2 ^ 53 <= todayCount h d ->
   todayCount h d + Z.of_nat n <= 2 ^ 53 ->
     todayCount (Nat.iter n (incrementCount d) h) d = todayCount h d + Z.of_nat n) /\
  (~ hasEntry d h -> todayCount (Nat.iter n (incrementCount d) h) d = 0) /\
  (forall d', d' <> d ->
     todayCount (Nat.iter n (incrementCount d) h) d' = todayCount h d').
Proof.
  assert (Hhas : forall k, hasEntry d (Nat.iter k (incrementCount d) h) <-> hasEntry d h).
  { induction k as [|k IH]; [reflexivity|]. simpl. now rewrite incrementCount_hasEntry. }
  split; [|split].
  - intros Hd Hlo. induction n as [|n IH]; intros Hhi; [simpl; lia|].
    change (Nat.iter (S n) (incrementCount d) h)
      with (incrementCount d (Nat.iter n (incrementCount d) h)).
    rewrite todayCount_incrementCount, bool_decide_eq_true_2 by reflexivity.
    assert (Hex : hasEntry d (Nat.iter n (incrementCount d) h)) by now apply Hhas.
    apply hasTodayEntry_spec in Hex. rewrite Hex, IH by lia.
    rewrite roundToDouble_exact by lia. lia.
  - intros Hno. apply todayCount_absent. now rewrite Hhas.
  - intros d' Hne. induction n as [|n IH]; [reflexivity|].
    change (Nat.iter (S n) (incrementCount d) h)
      with (incrementCount d (Nat.iter n (incrementCount d) h)).
    rewrite todayCount_incrementCount.
    now rewrite bool_decide_eq_false_2 by exact Hne.
Qed.

Lemma todayCount_after_increments_witness :
  todayCount
    (Nat.iter 3 (incrementCount (units "2024-06-10"))
       [{| count := 4; date := units "2024-06-10" |}]) (units "2024-06-10") = 4 + 3.
Proof.
  apply (proj1 (todayCount_after_increments
                  [{| count := 4; date := units "2024-06-10" |}] (units "2024-06-10") 3)).
  - eexists. split; [left; reflexivity|reflexivity].
  - vm_compute. discriminate.
  - vm_compute. discriminate.
Defined.

(** X2. After the reset, confirmed, today's count reads 0; the count read for
    another date is what it was, confirmed or not. *)
Theorem todayCount_resetCount (h : History) (d : jsstring) (confirmed : bool) :
  todayCount (resetCount true d h) d = 0 /\
  (forall d', d' <> d -> todayCount (resetCount confirmed d h) d' = todayCount h d').
Proof.
  split.
  - unfold resetCount, resetUpdater. rewrite todayCount_map
      by (intros e; now destruct (bool_decide (date e = d))).
    destruct (find _ h) as [e|] eqn:Hf; [|reflexivity].
    apply find_some in Hf as [_ Hd]. now rewrite Hd.
  - intros d' Hne. destruct confirmed; [|reflexivity].
    unfold resetCount, resetUpdater. rewrite todayCount_map
      by (intros e; now destruct (bool_decide (date e = d))).
    unfold todayCount. destruct (find _ h) as [e|] eqn:Hf; [|reflexivity].
    apply find_some in Hf as [_ Hd]. apply bool_decide_eq_true in Hd.
    rewrite bool_decide_eq_false_2 by congruence. reflexivity.
Qed.

Lemma todayCount_resetCount_witness :
  todayCount
    (resetCount true (units "2024-06-10")
       [{| count := 4; date := units "2024-06-10" |};
        {| count := 7; date := units "2024-06-09" |}]) (units "2024-06-09") = 7.
Proof.
  apply (proj2 (todayCount_resetCount
                  [{| count := 4; date := units "2024-06-10" |};
                   {| count := 7; date := units "2024-06-09" |}]
                  (units "2024-06-10") true) (units "2024-06-09")).
  intros E. discriminate E.
Defined.

(** ** More about the statistics *)

Lemma bestCount_is_fold (now : CivilDate) (h : History) :
  bestCount (bestDay (summaryStats now h)) =
    count (fold_left largerCount h {| count := 0; date := [] |}).
Proof. destruct h as [|e h]; reflexivity. Qed.

Lemma countsNonNegative_filter (p : TrackerData -> bool) (h : History) :
  countsNonNegative h -> countsNonNegative (List.filter p h).
Proof.
  induction 1 as [|e h He _ IH]; [apply Forall_nil; exact I|].
  cbn [List.filter]. destruct (p e); [|exact IH].
  apply Forall_cons. now split.
Qed.

Lemma filter_absent (h : History) (d : jsstring) :
  ~ hasEntry d h ->
  List.filter (fun e => negb (bool_decide (date e = d))) h = h.
Proof.
  induction h as [|e h IH]; intros Hno; [reflexivity|]. simpl.
  rewrite hasEntry_cons in Hno.
  rewrite bool_decide_eq_false_2 by tauto. simpl. f_equal. apply IH. tauto.
Qed.

(** With one record per date, the sum is the count of a day plus the sum over
    the other days. *)
Lemma sumCounts_split (h : History) (d : jsstring) :
  datesUnique h ->
  sumCounts h =
    todayCount h d + sumCounts (List.filter (fun e => negb (bool_decide (date e = d))) h).
Proof.
  unfold datesUnique. induction h as [|e h IH]; intros Hu; [reflexivity|].
  cbn [map] in Hu. apply NoDup_cons in Hu as [Hnot Hu].
  rewrite todayCount_cons. cbn [sumCounts List.filter].
  destruct (bool_decide (date e = d)) eqn:E; cbn [negb sumCounts].
  - apply bool_decide_eq_true in E. rewrite filter_absent; [reflexivity|].
    intros (e' & He' & Hd). apply Hnot. rewrite E, <- Hd.
    apply list_elem_of_In, in_map, He'.
  - rewrite (IH Hu). lia.
Qed.

Lemma filter_others_map (f : TrackerData -> TrackerData) (h : History) (d : jsstring) :
  (forall e, date (f e) = date e) -> (forall e, date e <> d -> f e = e) ->
  List.filter (fun e => negb (bool_decide (date e = d))) (map f h) =
  List.filter (fun e => negb (bool_decide (date e = d))) h.
Proof.
  intros Hd Hf. induction h as [|e h IH]; [reflexivity|].
  cbn [map List.filter]. rewrite Hd, IH.
  destruct (bool_decide (date e = d)) eqn:E; [reflexivity|].
  apply bool_decide_eq_false in E. now rewrite Hf.
Qed.

Lemma incrementCount_others (d : jsstring) (e : TrackerData) :
  date e <> d ->
  (if bool_decide (date e = d)
   then {| count := roundToDouble (count e + 1); date := date e |} else e) = e.
Proof. intros H. now rewrite bool_decide_eq_false_2. Qed.

Lemma resetUpdater_others (d : jsstring) (e : TrackerData) :
  date e <> d ->
  (if bool_decide (date e = d) then {| count := 0; date := date e |} else e) = e.
Proof. intros H. now rewrite bool_decide_eq_false_2. Qed.

(** The sums after a click, while no addition rounds. *)
Lemma incrementCount_sums (h : History) (d : jsstring) :
  datesUnique h -> sumAbs h < 2 ^ 53 -> hasEntry d h ->
  sumCounts (incrementCount d h) = sumCounts h + 1 /\
  sumAbs (incrementCount d h) <= sumAbs h + 1.
Proof.
  unfold datesUnique. induction h as [|e h IH]; intros Hu Hb Hd.
  - destruct Hd as (e & [] & _).
  - cbn [map] in Hu. apply NoDup_cons in Hu as [Hnot Hu].
    cbn [sumAbs] in Hb. pose proof (sumAbs_nonneg h).
    unfold incrementCount. cbn [map]. fold (incrementCount d h).
    destruct (bool_decide (date e = d)) eqn:E.
    + apply bool_decide_eq_true in E.
      rewrite incrementCount_absent.
      * cbn [sumCounts sumAbs count]. rewrite roundToDouble_exact by lia. lia.
      * intros (e' & He' & Hd'). apply Hnot. rewrite E, <- Hd'.
        apply list_elem_of_In, in_map, He'.
    + apply bool_decide_eq_false in E.
      apply hasEntry_cons in Hd as [Hd|Hd]; [contradiction|].
      destruct (IH Hu ltac:(lia) Hd) as [H1 H2].
      cbn [sumCounts sumAbs]. lia.
Qed.

(** X3. With one record per date and no sum that rounds, the total is the sum
    of the counts, and a click adds exactly 1 to it when today has its
    record and leaves it as it is when it has none. *)
Theorem total_incrementCount (now : CivilDate) (h : History) (d : jsstring) :
  datesUnique h -> sumAbs h < 2 ^ 53 ->
  total (summaryStats now h) = Finite (sumCounts h) /\
  (hasEntry d h ->
     total (summaryStats now (incrementCount d h)) = Finite (sumCounts h + 1)) /\
  (~ hasEntry d h ->
     total (summaryStats now (incrementCount d h)) = Finite (sumCounts h)).
Proof.
  intros Hu Hb. rewrite !total_is_fold.
  assert (H0 : fold_left addCount h (Finite 0) = Finite (sumCounts h)).
  { rewrite fold_sum by (simpl; lia). f_equal. }
  split; [exact H0|]. split.
  - intros Hd. destruct (incrementCount_sums h d Hu Hb Hd) as [H1 H2].
    rewrite fold_sum by (simpl; lia). f_equal. lia.
  - intros Hno. now rewrite incrementCount_absent.
Qed.

Lemma total_incrementCount_witness :
  total (summaryStats (mkDate 2024 6 10)
           (incrementCount (units "2024-06-10")
              [{| count := 4; date := units "2024-06-10" |};
               {| count := 7; date := units "2024-06-09" |}])) =
  Finite (sumCounts [{| count := 4; date := units "2024-06-10" |};
                     {| count := 7; date := units "2024-06-09" |}] + 1).
Proof.
  apply (total_incrementCount (mkDate 2024 6 10)
           [{| count := 4; date := units "2024-06-10" |};
            {| count := 7; date := units "2024-06-09" |}] (units "2024-06-10")).
  - unfold datesUnique. apply NoDup_cons. split.
    + intros H. apply list_elem_of_In in H. simpl in H.
      destruct H as [H|[]]. discriminate H.
    + apply NoDup_cons. split; [apply not_elem_of_nil | apply NoDup_nil; exact I].
  - simpl. lia.
  - eexists. split; [left; reflexivity|reflexivity].
Defined.

Lemma resetUpdater_sumAbs (h : History) (d : jsstring) :
  sumAbs (resetUpdater d h) <= sumAbs h.
Proof.
  induction h as [|e h IH]; [reflexivity|].
  unfold resetUpdater. cbn [map]. fold (resetUpdater d h).
  destruct (bool_decide (date e = d)); cbn [sumAbs count]; lia.
Qed.

(** X4. With one record per date and no sum that rounds, the confirmed
    reset takes today's count off the total. *)
Theorem total_resetCount (now : CivilDate) (h : History) (d : jsstring) :
  datesUnique h -> sumAbs h <= 2 ^ 53 ->
  total (summaryStats now h) = Finite (sumCounts h) /\
  total (summaryStats now (resetCount true d h)) =
    Finite (sumCounts h - todayCount h d).
Proof.
  intros Hu Hb. rewrite !total_is_fold. split.
  - rewrite fold_sum by (simpl; lia). f_equal.
  - unfold resetCount.
    pose proof (resetUpdater_sumAbs h d).
    rewrite fold_sum by (simpl; lia). f_equal. rewrite Z.add_0_l.
    assert (Hu' : datesUnique (resetUpdater d h))
      by (unfold datesUnique; now rewrite resetUpdater_dates).
    rewrite (sumCounts_split _ d Hu'), (sumCounts_split h d Hu).
    assert (H0 : todayCount (resetUpdater d h) d = 0).
    { unfold resetUpdater. rewrite todayCount_map
        by (intros e; now destruct (bool_decide (date e = d))).
      destruct (find _ h) as [e|] eqn:Hf; [|reflexivity].
      apply find_some in Hf as [_ Hd]. now rewrite Hd. }
    rewrite H0. unfold resetUpdater. rewrite filter_others_map.
    + lia.
    + intros e. now destruct (bool_decide (date e = d)).
    + apply resetUpdater_others.
Qed.

Lemma total_resetCount_witness :
  total (summaryStats (mkDate 2024 6 10)
           (resetCount true (units "2024-06-10")
              [{| count := 4; date := units "2024-06-10" |};
               {| count := 7; date := units "2024-06-09" |}])) =
  Finite (sumCounts [{| count := 4; date := units "2024-06-10" |};
                     {| count := 7; date := units "2024-06-09" |}] -
          todayCount [{| count := 4; date := units "2024-06-10" |};
                      {| count := 7; date := units "2024-06-09" |}]
                     (units "2024-06-10")).
Proof.
  apply (total_resetCount (mkDate 2024 6 10)
           [{| count := 4; date := units "2024-06-10" |};
            {| count := 7; date := units "2024-06-09" |}] (units "2024-06-10")).
  - unfold datesUnique. apply NoDup_cons. split.
    + intros H. apply list_elem_of_In in H. simpl in H.
      destruct H as [H|[]]. discriminate H.
    + apply NoDup_cons. split; [apply not_elem_of_nil | apply NoDup_nil; exact I].
  - simpl. lia.
Defined.

(** X5. [ensureToday] changes none of the three figures that are shown: the
    total, the total of the last seven days and the count of the best day. *)
Theorem stats_ensureToday (now : CivilDate) (h : History) (d : jsstring) :
  total (summaryStats now (ensureToday d h)) = total (summaryStats now h) /\
  last7DaysTotal (summaryStats now (ensureToday d h)) =
    last7DaysTotal (summaryStats now h) /\
  bestCount (bestDay (summaryStats now (ensureToday d h))) =
    bestCount (bestDay (summaryStats now h)).
Proof.
  rewrite !total_is_fold, !last7_is_fold, !bestCount_is_fold.
  unfold ensureToday. destruct (existsb _ h); cbn [negb]; [auto|].
  split; [reflexivity|]. split; [|reflexivity].
  cbn [List.filter date]. now destruct (str_ge d _).
Qed.

(** X6. The total of the last seven days lies between 0 and the total when no
    count is negative, whatever the date of today. *)
Theorem last7DaysTotal_bounds (now : CivilDate) (h : History) :
  countsNonNegative h ->
  Number_leb (Finite 0) (last7DaysTotal (summaryStats now h)) = true /\
  Number_leb (last7DaysTotal (summaryStats now h)) (total (summaryStats now h)) = true.
Proof.
  intros Hc. rewrite total_is_fold, last7_is_fold. split.
  - apply fold_nonnegSum; [apply nonnegSum_zero|].
    now apply countsNonNegative_filter.
  - apply fold_filter_le; [apply nonnegSum_zero|apply nonnegSum_zero|reflexivity|exact Hc].
Qed.

Lemma last7DaysTotal_bounds_witness :
  Number_leb (Finite 0)
    (last7DaysTotal (summaryStats (mkDate 2024 6 10)
       [{| count := 4; date := units "2024-06-10" |};
        {| count := 7; date := units "2024-05-09" |}])) = true /\
  Number_leb
    (last7DaysTotal (summaryStats (mkDate 2024 6 10)
       [{| count := 4; date := units "2024-06-10" |};
        {| count := 7; date := units "2024-05-09" |}]))
    (total (summaryStats (mkDate 2024 6 10)
       [{| count := 4; date := units "2024-06-10" |};
        {| count := 7; date := units "2024-05-09" |}])) = true.
Proof.
  apply (last7DaysTotal_bounds (mkDate 2024 6 10)).
  repeat (apply Forall_cons; split; [simpl; lia|]). apply Forall_nil; exact I.
Defined.

Lemma best_fold_spec (h : History) (acc : TrackerData) :
  let r := fold_left largerCount h acc in
  count acc <= count r /\
  Forall (fun e => count e <= count r) h /\
  (r = acc \/ In r h).
Proof.
  revert acc. induction h as [|e h IH]; intros acc; cbn [fold_left].
  - split; [lia|]. split; [apply Forall_nil; exact I | now left].
  - destruct (IH (largerCount acc e)) as (H1 & H2 & H3).
    assert (Hacc : count acc <= count (largerCount acc e) /\
                   count e <= count (largerCount acc e)).
    { unfold largerCount. destruct (Z.gtb_spec (count e) (count acc)); lia. }
    split; [lia|]. split.
    + apply Forall_cons. split; [lia | exact H2].
    + destruct H3 as [H3|H3]; [|right; right; exact H3].
      rewrite H3. unfold largerCount.
      destruct (count e >? count acc); [right; left; reflexivity | now left].
Qed.

(** X7. The count shown for the best day is the largest of 0 and the counts
    of the history: it is not negative, no count is above it, and it is 0 or
    the count of a record. *)
Theorem bestCount_is_max (now : CivilDate) (h : History) :
  let b := bestCount (bestDay (summaryStats now h)) in
  0 <= b /\
  (forall e, In e h -> count e <= b) /\
  (b = 0 \/ exists e, In e h /\ count e = b).
Proof.
  cbv zeta. rewrite bestCount_is_fold.
  destruct (best_fold_spec h {| count := 0; date := [] |}) as (H1 & H2 & H3).
  cbv zeta in *. split; [exact H1|]. split.
  - intros e He. rewrite Forall_forall in H2. now apply H2, list_elem_of_In.
  - destruct H3 as [H3|H3]; [left; now rewrite H3 | right; eauto].
Qed.

Lemma displayed_filter (d : jsstring) (h : History) :
  displayedHistory d h =
    List.filter (fun e => count e >? 0)
      (List.filter (fun e => negb (bool_decide (date e = d))) h).
Proof.
  unfold displayedHistory. induction h as [|e h IH]; [reflexivity|].
  cbn [List.filter]. rewrite IH.
  destruct (bool_decide (date e = d)); cbn [negb].
  - now rewrite andb_false_r.
  - rewrite andb_true_r. cbn [List.filter]. reflexivity.
Qed.

Lemma sumCounts_positive (h : History) :
  countsNonNegative h -> sumCounts (List.filter (fun e => count e >? 0) h) = sumCounts h.
Proof.
  induction 1 as [|e h He _ IH]; [reflexivity|]. cbn [List.filter sumCounts].
  destruct (Z.gtb_spec (count e) 0); cbn [sumCounts]; lia.
Qed.

(** X8. With one record per date, no negative count and no sum that rounds,
    the total is today's count plus the counts of the days that are
    listed. *)
Theorem total_is_today_plus_listed (now : CivilDate) (h : History) (d : jsstring) :
  historyInvariant h -> sumAbs h <= 2 ^ 53 ->
  total (summaryStats now h) =
    Finite (todayCount h d + sumCounts (displayedHistory d h)).
Proof.
  intros [Hu Hc] Hb. rewrite total_is_fold, fold_sum by (simpl; lia).
  f_equal. rewrite Z.add_0_l, (sumCounts_split h d Hu), displayed_filter.
  rewrite sumCounts_positive; [reflexivity|].
  unfold countsNonNegative in *. rewrite Forall_forall in *.
  intros e He. apply Hc. apply list_elem_of_In. apply list_elem_of_In in He.
  now apply filter_In in He as [He _].
Qed.

Lemma total_is_today_plus_listed_witness :
  total (summaryStats (mkDate 2024 6 10)
           [{| count := 4; date := units "2024-06-10" |};
            {| count := 0; date := units "2024-06-09" |};
            {| count := 7; date := units "2024-06-08" |}]) =
  Finite
    (todayCount [{| count := 4; date := units "2024-06-10" |};
                 {| count := 0; date := units "2024-06-09" |};
                 {| count := 7; date := units "2024-06-08" |}] (units "2024-06-10") +
     sumCounts (displayedHistory (units "2024-06-10")
                  [{| count := 4; date := units "2024-06-10" |};
                   {| count := 0; date := units "2024-06-09" |};
                   {| count := 7; date := units "2024-06-08" |}])).
Proof.
  apply (total_is_today_plus_listed (mkDate 2024 6 10)).
  - split.
    + unfold datesUnique. cbn [map date].
      repeat (apply NoDup_cons; split;
              [intros H; apply list_elem_of_In in H; simpl in H; intuition discriminate|]).
      apply NoDup_nil; exact I.
    + repeat (apply Forall_cons; split; [simpl; lia|]). apply Forall_nil; exact I.
  - simpl. lia.
Defined.

(** X9. The list of past days does not change when today's count is
    incremented or reset, or when today's record is created. *)
Theorem displayedHistory_frame (h : History) (d : jsstring) (confirmed : bool) :
  displayedHistory d (incrementCount d h) = displayedHistory d h /\
  displayedHistory d (resetCount confirmed d h) = displayedHistory d h /\
  displayedHistory d (ensureToday d h) = displayedHistory d h.
Proof.
  rewrite !displayed_filter. split; [|split].
  - unfold incrementCount. rewrite filter_others_map; [reflexivity| |].
    + intros e. now destruct (bool_decide (date e = d)).
    + apply incrementCount_others.
  - destruct confirmed; [|reflexivity].
    unfold resetCount, resetUpdater. rewrite filter_others_map; [reflexivity| |].
    + intros e. now destruct (bool_decide (date e = d)).
    + apply resetUpdater_others.
  - unfold ensureToday. destruct (existsb _ h); cbn [negb]; [reflexivity|].
    cbn [List.filter date]. now rewrite bool_decide_eq_true_2 by reflexivity.
Qed.

(** ** Clicks, resets and new days together *)

Lemma reset_after_increment (h : History) (d : jsstring) :
  resetUpdater d (incrementCount d h) = resetUpdater d h.
Proof.
  unfold resetUpdater, incrementCount. rewrite map_map. apply map_ext.
  intros e. destruct (bool_decide (date e = d)) eqn:E; cbn [date]; now rewrite E.
Qed.

(** X10. A confirmed reset after any number of clicks gives the history that
    the reset alone gives, and a second reset changes nothing. *)
Theorem reset_discards_increments (h : History) (d : jsstring) (n : nat) :
  resetCount true d (Nat.iter n (incrementCount d) h) = resetCount true d h /\
  resetCount true d (resetCount true d h) = resetCount true d h.
Proof.
  unfold resetCount. split.
  - induction n as [|n IH]; [reflexivity|].
    change (Nat.iter (S n) (incrementCount d) h)
      with (incrementCount d (Nat.iter n (incrementCount d) h)).
    now rewrite reset_after_increment.
  - unfold resetUpdater. rewrite map_map. apply map_ext.
    intros e. destruct (bool_decide (date e = d)) eqn:E; cbn [date]; now rewrite E.
Qed.

Lemma hasEntry_ensureToday (h : History) (d d' : jsstring) :
  hasEntry d' (ensureToday d h) <-> d' = d \/ hasEntry d' h.
Proof.
  unfold ensureToday. destruct (existsb _ h) eqn:E; cbn [negb].
  - apply hasTodayEntry_spec in E. split; [auto|]. intros [->|H]; auto.
  - rewrite hasEntry_cons. cbn [date]. split; intros [H|H]; auto.
Qed.

Lemma ensureToday_datesUnique (h : History) (d : jsstring) :
  datesUnique h -> datesUnique (ensureToday d h).
Proof.
  unfold datesUnique, ensureToday. intros Hu.
  destruct (existsb _ h) eqn:E; cbn [negb]; [exact Hu|].
  cbn [map date]. apply NoDup_cons. split; [|exact Hu].
  intros Hin. apply list_elem_of_In, in_map_iff in Hin as (e & He1 & He2).
  assert (Hex : hasEntry d h) by now exists e.
  apply hasTodayEntry_spec in Hex. congruence.
Qed.

Lemma ensureToday_counts (h : History) (d d' : jsstring) :
  todayCount (ensureToday d h) d' = todayCount h d'.
Proof.
  unfold ensureToday. destruct (existsb _ h) eqn:E; [reflexivity|]. cbn [negb].
  rewrite todayCount_cons. cbn [date count].
  destruct (bool_decide (d = d')) eqn:Ed; [|reflexivity].
  apply bool_decide_eq_true in Ed. subst d'. symmetry. apply todayCount_absent.
  intros Hex. apply hasTodayEntry_spec in Hex. congruence.
Qed.

Lemma observeDays_snoc (days : list jsstring) (d : jsstring) (h : History) :
  observeDays (days ++ [d]) h = ensureToday d (observeDays days h).
Proof. unfold observeDays. now rewrite fold_left_app. Qed.

(** X11. Over any sequence of days that the effect sees, a history with one
    record per date keeps one record per date and has a record for exactly
    the dates it had and the days seen. *)
Theorem observeDays_spec (days : list jsstring) (h : History) :
  datesUnique h ->
  datesUnique (observeDays days h) /\
  (forall d, hasEntry d (observeDays days h) <-> In d days \/ hasEntry d h).
Proof.
  intros Hu. induction days as [|d days IH] using rev_ind.
  - split; [exact Hu|]. intros d. simpl. tauto.
  - destruct IH as (IH1 & IH2). rewrite observeDays_snoc.
    split; [now apply ensureToday_datesUnique|].
    intros d'. rewrite hasEntry_ensureToday, IH2, in_app_iff. simpl.
    intuition congruence.
Qed.

Lemma observeDays_spec_witness :
  datesUnique (observeDays [units "2024-06-09"; units "2024-06-10"; units "2024-06-09"] []).
Proof.
  apply (observeDays_spec [units "2024-06-09"; units "2024-06-10"; units "2024-06-09"] []).
  apply NoDup_nil. exact I.
Defined.

(** X12. Creating the record of a day changes the count read for no date:
    neither one run of the effect nor any sequence of them. *)
Theorem observeDays_keeps_counts (days : list jsstring) (h : History) (d : jsstring) :
  todayCount (observeDays days h) d = todayCount h d /\
  todayCount (ensureTodayEffect true d h) d = todayCount h d.
Proof.
  split; [|apply ensureToday_counts].
  induction days as [|d' days IH] using rev_ind; [reflexivity|].
  now rewrite observeDays_snoc, ensureToday_counts.
Qed.

(** ** The clock *)

Lemma str_compare_refl (a : jsstring) : str_compare a a = Eq.
Proof. induction a as [|x a IH]; [reflexivity|]. simpl. now rewrite N.compare_refl. Qed.

(** Two dates of four-digit years with the same text are the same date. *)
Lemma toLocaleDateString_inj (a b : CivilDate) :
  validDate a -> validDate b ->
  toLocaleDateString_enCA a = toLocaleDateString_enCA b -> a = b.
Proof.
  intros Ha Hb E.
  pose proof (str_compare_dates a b Ha Hb) as Hc. rewrite E, str_compare_refl in Hc.
  unfold dateCompare in Hc.
  destruct (Z.compare_spec (year a) (year b)) as [Ey|?|?]; try discriminate.
  destruct (Z.compare_spec (month a) (month b)) as [Em|?|?]; try discriminate.
  symmetry in Hc. apply Z.compare_eq in Hc.
  destruct a, b. simpl in *. congruence.
Qed.

(** X13. A tick of the clock calls [setTodayDate] exactly when the calendar
    date has changed, and then with the text of the new date. *)
Theorem useDateTick_detects_change (a b : CivilDate) :
  validDate a -> validDate b ->
  (useDateTick (getTodayDateString a) b = None <-> a = b) /\
  (a <> b -> useDateTick (getTodayDateString a) b = Some (getTodayDateString b)) /\
  useDateState (getTodayDateString a) b = getTodayDateString b.
Proof.
  intros Ha Hb. unfold useDateState, useDateTick, getTodayDateString.
  destruct (bool_decide (toLocaleDateString_enCA b = toLocaleDateString_enCA a)) eqn:E;
    cbn [negb].
  - apply bool_decide_eq_true in E.
    assert (a = b) by (symmetry; now apply toLocaleDateString_inj).
    split; [tauto|]. split; [contradiction|now rewrite E].
  - apply bool_decide_eq_false in E.
    split; [|split; [reflexivity|reflexivity]].
    split; [discriminate|]. intros ->. contradiction.
Qed.

Lemma useDateTick_detects_change_witness :
  useDateTick (getTodayDateString (mkDate 2024 2 29)) (mkDate 2024 3 1) =
    Some (getTodayDateString (mkDate 2024 3 1)).
Proof.
  apply (proj1 (proj2 (useDateTick_detects_change (mkDate 2024 2 29) (mkDate 2024 3 1)
                         ltac:(vm_compute; intuition discriminate)
                         ltac:(vm_compute; intuition discriminate)))).
  intros E. discriminate E.
Defined.

(** X14. For two dates of four-digit years, the comparison of their texts on
    line 113 holds exactly when the first date is not before the second. *)
Theorem date_text_order (a b : CivilDate) :
  validDate a -> validDate b ->
  (str_ge (toLocaleDateString_enCA a) (toLocaleDateString_enCA b) = true <->
   dayNumber b <= dayNumber a).
Proof.
  intros Ha Hb. rewrite str_ge_dates by assumption. apply Z.leb_le.
Qed.

Lemma date_text_order_witness :
  str_ge (toLocaleDateString_enCA (mkDate 2024 3 1))
         (toLocaleDateString_enCA (mkDate 2023 12 31)) = true.
Proof.
  apply (date_text_order (mkDate 2024 3 1) (mkDate 2023 12 31)
           ltac:(vm_compute; intuition discriminate)
           ltac:(vm_compute; intuition discriminate)).
  vm_compute. discriminate.
Defined.

(** X15. The floor date of lines 108-110 is a date of the calendar, the one
    six days before today, also across the start of a month or of a year and
    across 29 February. *)
Theorem sevenDaysAgo_six_days_back (now : CivilDate) :
  validDate now -> 1000 < year now ->
  validDate (setDate now (getDate now - 6)) /\
  dayNumber (setDate now (getDate now - 6)) = dayNumber now - 6.
Proof. apply sevenDaysAgo_spec. Qed.

Lemma sevenDaysAgo_six_days_back_witness :
  toLocaleDateString_enCA (setDate (mkDate 2024 3 2) (getDate (mkDate 2024 3 2) - 6)) =
    units "2024-02-25" /\
  dayNumber (setDate (mkDate 2024 3 2) (getDate (mkDate 2024 3 2) - 6)) =
    dayNumber (mkDate 2024 3 2) - 6.
Proof.
  split; [reflexivity|].
  apply (sevenDaysAgo_six_days_back (mkDate 2024 3 2)
           ltac:(vm_compute; intuition discriminate) ltac:(simpl; lia)).
Defined.

(** ** Persistence after the effects *)

Lemma iter_increment_length (h : History) (d : jsstring) (n : nat) :
  length (Nat.iter n (incrementCount d) h) = length h.
Proof.
  induction n as [|n IH]; [reflexivity|].
  change (Nat.iter (S n) (incrementCount d) h)
    with (incrementCount d (Nat.iter n (incrementCount d) h)).
  unfold incrementCount. now rewrite length_map.
Qed.

Lemma resetCount_length (h : History) (d : jsstring) (c : bool) :
  length (resetCount c d h) = length h.
Proof. destruct c; [|reflexivity]. apply length_map. Qed.

Lemma ensureToday_length (h : History) (d : jsstring) :
  (1 <= length (ensureToday d h))%nat.
Proof.
  unfold ensureToday. destruct (existsb _ h) eqn:E; cbn [negb length]; [|lia].
  destruct h; [discriminate|simpl; lia].
Qed.

(** X16. Once the ensure-today effect has run, the history is never empty, so
    the save effect writes it: after any number of clicks and a reset,
    confirmed or not, saving and then loading gives the history back,
    whatever the store held. *)
Theorem save_after_ensureToday (h : History) (d : jsstring) (n : nat) (confirmed : bool)
    (st : gmap jsstring jsstring) (v0 : json) :
  let h' := resetCount confirmed d
              (Nat.iter n (incrementCount d) (ensureTodayEffect true d h)) in
  h' <> [] /\
  loadEffect true (saveEffect true h' st) v0 = Normal (historyValue h') /\
  asHistory (historyValue h') = Some h'.
Proof.
  intros h'.
  assert (Hlen : (1 <= length h')%nat).
  { subst h'. rewrite resetCount_length, iter_increment_length.
    apply ensureToday_length. }
  destruct h' as [|e r] eqn:E; [simpl in Hlen; lia|].
  split; [discriminate|]. split; [|apply asHistory_historyValue].
  apply load_stringified. unfold saveEffect. cbn [negb orb length Nat.eqb].
  apply getItem_setItem.
Qed.

(** X17. The save effect changes no other key of the store and never removes
    the stored history. *)
Theorem saveEffect_frame (isClient : bool) (h : History) (st : gmap jsstring jsstring) :
  (forall k, k <> storageKey -> getItem k (saveEffect isClient h st) = getItem k st) /\
  (is_Some (getItem storageKey st) ->
   is_Some (getItem storageKey (saveEffect isClient h st))).
Proof.
  unfold saveEffect, getItem, setItem.
  destruct (negb isClient || (length h =? 0)%nat); [split; auto|].
  split.
  - intros k Hk. now rewrite lookup_insert_ne.
  - intros _. rewrite lookup_insert_eq. eauto.
Qed.

Lemma saveEffect_frame_witness :
  getItem (units "theme")
    (saveEffect true [{| count := 2; date := units "2024-06-10" |}]
       (setItem (units "theme") (units "dark") ∅)) = Some (units "dark").
Proof.
  rewrite (proj1 (saveEffect_frame true [{| count := 2; date := units "2024-06-10" |}]
                    (setItem (units "theme") (units "dark") ∅)) (units "theme")).
  - apply lookup_insert_eq.
  - intros E. discriminate E.
Defined.
